(** * Redis-backed flow queue: scheduled-job migration and repeat-job removal

    A shallow embedding of
    [packages/server/api/src/app/workers/flow-worker/queues/redis/redis-queue.ts]
    together with theorems about the schema-migration pass run by [init()]
    and about [removeRepeatingJob] / [findRepeatableJobKey]. *)

From stdpp Require Import gmap strings list fin_maps.
From Stdlib Require Import ZArith.

#[local] Set Warnings "-register-all".
Local Open Scope Z_scope.

(** ** JavaScript values *)

(** Job payloads are JSON. A property that is absent and a property that
    holds [undefined] read the same ([o.k] is [undefined]) and serialise the
    same ([JSON.stringify] drops it), so an object is a finite map and
    [undefined] is the absence of a binding: a property read has type
    [option value], [None] standing for [undefined]. Numbers are the
    integers, which is all a schema version ever is. *)
Inductive value : Type :=
  | VNull : value
  | VBool (b : bool) : value
  | VNum (n : Z) : value
  | VStr (s : string) : value
  | VArr (xs : list value) : value
  | VObj (o : gmap string value) : value.

Abbreviation obj := (gmap string value).

(** [isNil] of [@activepieces/shared]: [null] or [undefined]. *)
Definition isNil (v : option value) : bool :=
  match v with
  | None | Some VNull => true
  | Some _ => false
  end.

(** [isNil] at a type that has no [null] of its own ([string | undefined]). *)
Definition isNilOpt {A : Type} (x : option A) : bool :=
  match x with
  | None => true
  | Some _ => false
  end.

(** [v === n] for a number literal [n]. *)
Definition strictEqNum (v : option value) (n : Z) : bool :=
  match v with
  | Some (VNum m) => bool_decide (m = n)
  | _ => false
  end.

(** [v === s] for a string [s]. *)
Definition strictEqStr (v : option value) (s : string) : bool :=
  match v with
  | Some (VStr t) => bool_decide (t = s)
  | _ => false
  end.

(** [o.k = v]; storing [undefined] leaves no binding behind. *)
Definition setProp (k : string) (v : option value) (o : obj) : obj :=
  match v with
  | Some x => <[k := x]> o
  | None => delete k o
  end.

(** ** Constants of the shared packages *)

(** Modelled from the spec: the string enums [ExecutionType],
    [RunEnvironment], [RepeatableJobType] and [ScheduleType] of
    [@activepieces/shared] and [job-data.ts] are not among the sources; each
    member is the string of its own name, as the spec writes them. *)
Module ExecutionType.
Definition BEGIN : string := "BEGIN".
Definition RESUME : string := "RESUME".
End ExecutionType.

Module RunEnvironment.
Definition PRODUCTION : string := "PRODUCTION".
End RunEnvironment.

Module RepeatableJobType.
Definition EXECUTE_TRIGGER : string := "EXECUTE_TRIGGER".
Definition DELAYED_FLOW : string := "DELAYED_FLOW".
End RepeatableJobType.

Module ScheduleType.
Definition CRON_EXPRESSION : string := "CRON_EXPRESSION".
End ScheduleType.

(** Modelled from the spec: [LATEST_JOB_DATA_SCHEMA_VERSION] of [job-data.ts]
    (not among the sources); the spec's version lineage ends at v4, "current /
    latest". *)
Definition LATEST_JOB_DATA_SCHEMA_VERSION : Z := 4.

(** The members of [ErrorCode] that the sources mention. *)
Module ErrorCode.
Inductive t : Set :=
  | AUTHORIZATION
  | JOB_REMOVAL_FAILURE
  | QUOTA_EXCEEDED.
End ErrorCode.

(** What a rejected promise carries. *)
Inductive error : Type :=
  | ActivepiecesError (code : ErrorCode.t) (params : gmap string string)
      (** [new ActivepiecesError({ code, params })] *)
  | TypeError
      (** a property read on [undefined] or [null] *)
  | LockAcquisitionError
      (** [acquireLock] gave up *)
  | PersistenceError.
      (** a [flowRepo()] call was rejected *)

Definition errorCode (e : error) : option ErrorCode.t :=
  match e with
  | ActivepiecesError c _ => Some c
  | _ => None
  end.

(** ** Broker records and flow rows *)

(** [job.opts.repeat] *)
Record RepeatOptions : Type := mkRepeat {
  tz : option string;
  pattern : option string;
}.

(** The part of a bullmq [Job] that the module reads or writes. *)
Record Job : Type := mkJob {
  data : option obj;               (** [job.data]; [None] when nil *)
  repeat : option RepeatOptions;   (** [job.opts.repeat] *)
  repeatJobKey : option string;    (** [job.repeatJobKey] *)
}.

(** [type MaybeJob = Job<ScheduledJobData, unknown> | undefined] *)
Abbreviation MaybeJob := (option Job).

Record Schedule : Type := mkSchedule {
  type : string;
  timezone : string;
  cronExpression : string;
}.

(** A row of the flow table, as far as the migration touches it; [flowId]
    is the row's [id]. *)
Record Flow : Type := mkFlow {
  flowId : string;
  publishedVersionId : option string;
  schedule : option Schedule;
}.

(** What the module writes to the logger and to the exception handler. *)
Inductive event : Type :=
  | InfoStartingMigration
  | InfoFoundTotalJobs (n : nat)
  | InfoMigratedJobs (n : nat)
  | ErrorUnrepeatableJob
  | WarnJobKeyNotFound (id : string)
  | HandledCouldNotFindJobKey (id : string).

(** ** The world outside the module *)

Record World : Type := mkWorld {
  lockFree : bool;
    (** whether ['jobs_lock'] can be had within the timeout *)
  lockHeld : bool;
    (** whether this process holds it *)
  redis : gmap string string;
    (** the string keys read and written through [scheduledJobQueue.client] *)
  repeatKeys : gset string;
    (** the keys of the active repeat schedules *)
  scheduledJobs : list MaybeJob;
    (** what [scheduledJobQueue.getJobs()] lists *)
  flowTable : list Flow;
  dbOnline : bool;
    (** whether [flowRepo()] calls are answered *)
  log : list event;
}.

Definition withLockHeld (b : bool) (w : World) : World :=
  mkWorld (lockFree w) b (redis w) (repeatKeys w) (scheduledJobs w)
          (flowTable w) (dbOnline w) (log w).

Definition withRedis (r : gmap string string) (w : World) : World :=
  mkWorld (lockFree w) (lockHeld w) r (repeatKeys w) (scheduledJobs w)
          (flowTable w) (dbOnline w) (log w).

Definition withRepeatKeys (s : gset string) (w : World) : World :=
  mkWorld (lockFree w) (lockHeld w) (redis w) s (scheduledJobs w)
          (flowTable w) (dbOnline w) (log w).

Definition withScheduledJobs (l : list MaybeJob) (w : World) : World :=
  mkWorld (lockFree w) (lockHeld w) (redis w) (repeatKeys w) l
          (flowTable w) (dbOnline w) (log w).

Definition withFlowTable (t : list Flow) (w : World) : World :=
  mkWorld (lockFree w) (lockHeld w) (redis w) (repeatKeys w) (scheduledJobs w)
          t (dbOnline w) (log w).

Definition withLog (l : list event) (w : World) : World :=
  mkWorld (lockFree w) (lockHeld w) (redis w) (repeatKeys w) (scheduledJobs w)
          (flowTable w) (dbOnline w) l.

(** ** Promises: state and rejection *)

Inductive result (A : Type) : Type :=
  | Ok (a : A)
  | Err (e : error).
Arguments Ok {A} a.
Arguments Err {A} e.

(** An awaited call: it changes the world and either resolves or rejects.
    What it did before rejecting stays done. *)
Definition M (A : Type) : Type := World → World * result A.

#[global] Instance M_ret : MRet M := λ A a w, (w, Ok a).

#[global] Instance M_bind : MBind M := λ A B f m w,
  match m w with
  | (w', Ok a) => f a w'
  | (w', Err e) => (w', Err e)
  end.

Definition throw {A : Type} (e : error) : M A := λ w, (w, Err e).

(** [try { body } finally { cleanup }] *)
Definition tryFinally {A : Type} (body : M A) (cleanup : M unit) : M A := λ w,
  match body w with
  | (w1, r) =>
      match cleanup w1 with
      | (w2, Ok _) => (w2, r)
      | (w2, Err e) => (w2, Err e)
      end
  end.

Definition logger (e : event) : M unit := λ w,
  (withLog (log w ++ [e]) w, Ok ()).

(** [v.k] for a value [v] that is not nil: a primitive has no property of
    the names read here. *)
Definition getProp (k : string) (v : value) : option value :=
  match v with
  | VObj o => o !! k
  | _ => None
  end.

(** [v.k] for a value [v] that may be nil: reading a property of
    [undefined] or [null] throws. *)
Definition readProp (v : option value) (k : string) : M (option value) :=
  if isNil v then throw TypeError else mret (v ≫= getProp k).

(** ** Collaborators *)

(** Modelled from the spec: [acquireLock] of [helper/lock] is not among the
    sources. The spec gives [acquire(key, timeoutMs) → handle] and
    [release(handle)], with a hard timeout; a promise of a handle can fail
    only by rejecting. The world holds the one lock the module asks for. *)
Definition acquireLock (key : string) (timeout : Z) : M unit := λ w,
  if lockFree w then (withLockHeld true w, Ok ())
  else (w, Err LockAcquisitionError).

(** [migrationLock.release()] *)
Definition release : M unit := λ w, (withLockHeld false w, Ok ()).

(** [scheduledJobQueue.getJobs()] *)
Definition getJobs : M (list MaybeJob) := λ w, (w, Ok (scheduledJobs w)).

(** A [Job] object is a handle on one broker record. The model names the
    record by its position in the list [getJobs] returned, and keeps the
    object's own fields next to it. *)
Abbreviation JobHandle := (nat * Job)%type.

(** The job object with [d] for its [data]. *)
Definition withData (d : obj) (job : Job) : Job :=
  mkJob (Some d) (repeat job) (repeatJobKey job).

(** [job.updateData(d)]: the record's payload is rewritten, and so is
    [job.data] of the object at hand. *)
Definition updateData (job : JobHandle) (d : obj) : M JobHandle := λ w,
  (withScheduledJobs (<[job.1 := Some (withData d job.2)]> (scheduledJobs w)) w,
   Ok (job.1, withData d job.2)).

(** [client.get(key)] *)
Definition clientGet (key : string) : M (option string) := λ w,
  (w, Ok (redis w !! key)).

(** [client.del(key)] *)
Definition clientDel (key : string) : M unit := λ w,
  (withRedis (delete key (redis w)) w, Ok ()).

(** [scheduledJobQueue.removeRepeatableByKey(key)] of bullmq: when the key
    names an active repeat schedule, the schedule and its next programmed
    job are removed and the answer is [true]; otherwise nothing changes and
    the answer is [false]. *)
Definition unscheduled (key : string) (w : World) : World :=
  withScheduledJobs
    (filter (λ mj : MaybeJob, (mj ≫= repeatJobKey) ≠ Some key)
            (scheduledJobs w))
    (withRepeatKeys (repeatKeys w ∖ {[key]}) w).

Definition removeRepeatableByKey (key : string) : M bool := λ w,
  if bool_decide (key ∈ repeatKeys w) then (unscheduled key w, Ok true)
  else (w, Ok false).

(** Modelled from the spec: the match of [flowRepo]'s "keyed lookup by
    published-version id"; [flows/flow/flow.repo] is not among the sources.
    A key that is not a string matches no row. *)
Definition publishedAs (key : option value) (f : Flow) : bool :=
  match publishedVersionId f with
  | Some pv => strictEqStr key pv
  | None => false
  end.

(** Modelled from the spec: [flowRepo().findOneBy({ publishedVersionId })],
    the "keyed lookup by published-version id" of the external persistence
    ([flows/flow/flow.repo] is not among the sources); it rejects when the
    persistence does not answer. *)
Definition findOneByPublishedVersionId (key : option value) : M (option Flow) :=
  λ w,
  if dbOnline w then
    (w, Ok (List.find (publishedAs key) (flowTable w)))
  else (w, Err PersistenceError).

(** The row [f] after an update of the schedule of the flow [id]. *)
Definition setSchedule (id : string) (s : Schedule) (f : Flow) : Flow :=
  if bool_decide (flowId f = id)
  then mkFlow (flowId f) (publishedVersionId f) (Some s)
  else f.

(** Modelled from the spec: [flowRepo().update(id, { schedule })], the
    "update of {type, timezone, cronExpression}" on the flow's schedule
    record ([flows/flow/flow.repo] is not among the sources). *)
Definition updateSchedule (id : string) (s : Schedule) : M unit := λ w,
  if dbOnline w then
    (withFlowTable (map (setSchedule id s) (flowTable w)) w, Ok ())
  else (w, Err PersistenceError).

(** [exceptionHandler.handle(new Error(`Couldn't find job key for id ...`))] *)
Definition exceptionHandlerHandle (e : event) : M unit := logger e.

(** ** The module *)

Definition repeatingJobKey (id : string) : string :=
  "activepieces:repeatJobKey:" +:+ id.

(** [f.data.flowVersionId === id] on a job that passed the nil filter. *)
Definition payloadMatches (id : string) (f : Job) : bool :=
  match data f with
  | Some d => strictEqStr (d !! "flowVersionId") id
  | None => false
  end.

(** [jobs.filter(f => !isNil(f) && !isNil(f.data))] *)
Definition withPayload (jobs : list MaybeJob) : list Job :=
  omap (λ mj : MaybeJob,
          match mj with
          | Some f => if isNilOpt (data f) then None else Some f
          | None => None
          end) jobs.

(** [jobs.filter(...).find((f) => f.data.flowVersionId === id)?.repeatJobKey] *)
Definition scanForJobKey (id : string) (jobs : list MaybeJob) : option string :=
  List.find (payloadMatches id) (withPayload jobs) ≫= repeatJobKey.

Definition findRepeatableJobKey (id : string) : M (option string) :=
  jobKey ← clientGet (repeatingJobKey id);
  if isNilOpt jobKey then
    logger (WarnJobKeyNotFound id);;
    jobs ← getJobs;
    mret (scanForJobKey id jobs)
  else mret jobKey.

(** [new ActivepiecesError({ code: ErrorCode.JOB_REMOVAL_FAILURE,
    params: { jobId: id } })] *)
Definition jobRemovalFailure (id : string) : error :=
  ActivepiecesError ErrorCode.JOB_REMOVAL_FAILURE {[ "jobId" := id ]}.

Definition removeRepeatingJob (id : string) : M unit :=
  jobKey ← findRepeatableJobKey id;
  match jobKey with
  | None => exceptionHandlerHandle (HandledCouldNotFindJobKey id)
  | Some jobKey =>
      result ← removeRepeatableByKey jobKey;
      clientDel (repeatingJobKey id);;
      if negb result then throw (jobRemovalFailure id) else mret ()
  end.

Definition schemaVersion (d : obj) : option value := d !! "schemaVersion".

Definition jobDataSchemaVersionIsNotLatest (job : MaybeJob) : bool :=
  match job with
  | None => false
  | Some j =>
      match data j with
      | None => false
      | Some d =>
          negb (strictEqNum (schemaVersion d) LATEST_JOB_DATA_SCHEMA_VERSION)
      end
  end.

Definition updateCronExpressionOfRedisToPostgresTable (job : Job) : M bool :=
  let tz := repeat job ≫= tz in
  let pattern := repeat job ≫= pattern in
  match tz, pattern with
  | Some tz, Some pattern =>
      flowVersionId ← readProp (VObj <$> data job) "flowVersionId";
      flow ← findOneByPublishedVersionId flowVersionId;
      match flow with
      | Some flow =>
          updateSchedule (flowId flow)
            (mkSchedule ScheduleType.CRON_EXPRESSION tz pattern);;
          mret true
      | None => mret false
      end
  | _, _ =>
      logger ErrorUnrepeatableJob;;
      mret false
  end.

(** The state of the loop body between its three [if] blocks: the job
    object, [modifiedJobData] and the counter [migratedJobs]. *)
Abbreviation LoopState := (JobHandle * obj * nat)%type.

(** The object literal of the first block. *)
Definition normalizedJobData
    (flowVersion_id flowVersion_flowId projectId triggerType : option value)
    : obj :=
  setProp "schemaVersion" (Some (VNum 2))
  (setProp "flowVersionId" flowVersion_id
  (setProp "flowId" flowVersion_flowId
  (setProp "projectId" projectId
  (setProp "environment" (Some (VStr RunEnvironment.PRODUCTION))
  (setProp "executionType" (Some (VStr ExecutionType.BEGIN))
  (setProp "triggerType" triggerType ∅)))))).

(** [if (schemaVersion === undefined || schemaVersion === 1) { ... }] *)
Definition migrateV1ToV2 (st : LoopState) : M LoopState :=
  let '(job, modifiedJobData, migratedJobs) := st in
  if isNilOpt (schemaVersion modifiedJobData)
     || strictEqNum (schemaVersion modifiedJobData) 1
  then
    let flowVersion := modifiedJobData !! "flowVersion" in
    let projectId := modifiedJobData !! "projectId" in
    let triggerType := modifiedJobData !! "triggerType" in
    flowVersion_id ← readProp flowVersion "id";
    flowVersion_flowId ← readProp flowVersion "flowId";
    let modifiedJobData :=
      normalizedJobData flowVersion_id flowVersion_flowId projectId triggerType in
    let migratedJobs := S migratedJobs in
    job ← updateData job modifiedJobData;
    mret (job, modifiedJobData, migratedJobs)
  else mret st.

(** [if (schemaVersion === 2) { ... }] *)
Definition migrateV2ToV3 (st : LoopState) : M LoopState :=
  let '(job, modifiedJobData, migratedJobs) := st in
  if strictEqNum (schemaVersion modifiedJobData) 2 then
    updated ← updateCronExpressionOfRedisToPostgresTable job.2;
    if updated : bool then
      let modifiedJobData :=
        setProp "schemaVersion" (Some (VNum 3)) modifiedJobData in
      let migratedJobs := S migratedJobs in
      job ← updateData job modifiedJobData;
      mret (job, modifiedJobData, migratedJobs)
    else mret st
  else mret st.

(** The assignments of the third block, in their order: the version, the
    two conditional [jobType]s, and [executionType = undefined]. *)
Definition renameExecutionType (modifiedJobData : obj) : obj :=
  let modifiedJobData :=
    setProp "schemaVersion" (Some (VNum 4)) modifiedJobData in
  let modifiedJobData :=
    if strictEqStr (modifiedJobData !! "executionType") ExecutionType.BEGIN
    then setProp "jobType" (Some (VStr RepeatableJobType.EXECUTE_TRIGGER))
                 modifiedJobData
    else modifiedJobData in
  let modifiedJobData :=
    if strictEqStr (modifiedJobData !! "executionType") ExecutionType.RESUME
    then setProp "jobType" (Some (VStr RepeatableJobType.DELAYED_FLOW))
                 modifiedJobData
    else modifiedJobData in
  setProp "executionType" None modifiedJobData.

(** [if (schemaVersion === 3) { ... }] *)
Definition migrateV3ToV4 (st : LoopState) : M LoopState :=
  let '(job, modifiedJobData, migratedJobs) := st in
  if strictEqNum (schemaVersion modifiedJobData) 3 then
    let modifiedJobData := renameExecutionType modifiedJobData in
    let migratedJobs := S migratedJobs in
    job ← updateData job modifiedJobData;
    mret (job, modifiedJobData, migratedJobs)
  else mret st.

(** The body of [for (const job of jobsToMigrate)]. [job.data] is a parsed
    JSON document, so [JSON.parse(JSON.stringify(job.data))] is a copy of
    it; a job without payload cannot be copied that way (the filter lets
    none through). The body returns the counter. *)
Definition migrateJob (job : JobHandle) (migratedJobs : nat) : M nat :=
  match data job.2 with
  | None => throw TypeError
  | Some modifiedJobData =>
      st ← migrateV1ToV2 (job, modifiedJobData, migratedJobs);
      st ← migrateV2ToV3 st;
      st ← migrateV3ToV4 st;
      mret st.2
  end.

Fixpoint forEachJob (jobs : list JobHandle) (migratedJobs : nat) : M nat :=
  match jobs with
  | [] => mret migratedJobs
  | job :: rest =>
      migratedJobs ← migrateJob job migratedJobs;
      forEachJob rest migratedJobs
  end.

(** [scheduledJobs.filter(jobDataSchemaVersionIsNotLatest)]: the objects that
    pass the type guard, each with the position of its record. *)
Definition jobsToMigrate (scheduledJobs : list MaybeJob) : list JobHandle :=
  omap (λ h : nat * MaybeJob,
          if jobDataSchemaVersionIsNotLatest h.2
          then (λ j, (h.1, j)) <$> h.2
          else None)
       (imap pair scheduledJobs).

Definition migrateScheduledJobs : M unit :=
  acquireLock "jobs_lock" 30000;;
  tryFinally
    (logger InfoStartingMigration;;
     scheduledJobs ← getJobs;
     logger (InfoFoundTotalJobs (length scheduledJobs));;
     migratedJobs ← forEachJob (jobsToMigrate scheduledJobs) 0;
     logger (InfoMigratedJobs migratedJobs))
    release.

(** [redisQueueManager.init]: the two [Queue] objects are constructed, which
    touches nothing the model holds, and the migration is awaited. *)
Definition init : M unit := migrateScheduledJobs.

(** ** Vocabulary of the statements *)

(** What a lookup in the flow table depends on. *)
Definition flowKeys (t : list Flow) : list (string * option string) :=
  map (λ f, (flowId f, publishedVersionId f)) t.

(** [evolves P w w']: from [w] to [w'] only the log, the schedules of the
    flow rows and the broker records at positions in [P] may have changed. *)
Record evolves (P : nat → Prop) (w w' : World) : Prop := mkEvolves {
  ev_lockFree : lockFree w' = lockFree w;
  ev_lockHeld : lockHeld w' = lockHeld w;
  ev_redis : redis w' = redis w;
  ev_repeatKeys : repeatKeys w' = repeatKeys w;
  ev_dbOnline : dbOnline w' = dbOnline w;
  ev_flowKeys : flowKeys (flowTable w') = flowKeys (flowTable w);
  ev_length : length (scheduledJobs w') = length (scheduledJobs w);
  ev_frame : ∀ j, ¬ P j → scheduledJobs w' !! j = scheduledJobs w !! j;
}.

(** A call that makes the world evolve within [P], whatever its outcome,
    and whose value, when it resolves, satisfies [Q]. *)
Definition preserves {A : Type} (P : nat → Prop) (m : M A) (Q : A → Prop)
    : Prop :=
  ∀ w, evolves P w (m w).1 ∧ ∀ a, (m w).2 = Ok a → Q a.

(** The payload the first block writes for a payload [d]. *)
Definition v2Of (d : obj) : obj :=
  normalizedJobData (d !! "flowVersion" ≫= getProp "id")
                    (d !! "flowVersion" ≫= getProp "flowId")
                    (d !! "projectId") (d !! "triggerType").

(** The payload a job of the first generation has after all three
    blocks. *)
Definition v4Of (d : obj) : obj :=
  renameExecutionType (setProp "schemaVersion" (Some (VNum 3)) (v2Of d)).

(** The guard of the first block. *)
Definition isV1 (d : obj) : bool :=
  isNilOpt (schemaVersion d) || strictEqNum (schemaVersion d) 1.

(** [job.updateData(d)] seen from the world. *)
Definition stored (i : nat) (job : Job) (w : World) : World :=
  withScheduledJobs (<[i := Some job]> (scheduledJobs w)) w.

(** The schedule the second block writes for a job with repeat options. *)
Definition cronSchedule (tz pattern : string) : Schedule :=
  mkSchedule ScheduleType.CRON_EXPRESSION tz pattern.

(** The second block declines: the backfill answers [false]. *)
Definition declines (w : World) (job : Job) : Prop :=
  (updateCronExpressionOfRedisToPostgresTable job w).2 = Ok false.

(** A record on which a pass has nothing left to do. *)
Definition settledJob (w : World) (job : Job) : Prop :=
  match data job with
  | None => True
  | Some d =>
      isV1 d = false ∧ strictEqNum (schemaVersion d) 3 = false
      ∧ (strictEqNum (schemaVersion d) 2 = true → declines w job)
  end.

(** The loop state keeps naming the record at position [i]. *)
Definition sameRecord (i : nat) (st : LoopState) : Prop := st.1.1.1 = i.

(** The loop state and the record at position [i] agree. *)
Definition inSync (i : nat) (st : LoopState) (w : World) : Prop :=
  st.1.1.1 = i
  ∧ scheduledJobs w !! i = Some (Some st.1.1.2)
  ∧ data st.1.1.2 = Some st.1.2.

(** The world after the lookup missed the side mapping: one warning richer. *)
Definition afterMiss (id : string) (w : World) : World :=
  withLog (log w ++ [WarnJobKeyNotFound id]) w.

(** [client.del(repeatingJobKey(id))] seen from the world. *)
Definition forgotten (id : string) (w : World) : World :=
  withRedis (delete (repeatingJobKey id) (redis w)) w.

(** No record of [jobs] has a payload that names [id]. *)
Definition noMatch (id : string) (jobs : list MaybeJob) : Prop :=
  Forall (λ mj : MaybeJob, ∀ g, mj = Some g → payloadMatches id g = false) jobs.

(** The world in which the loop of a pass starts: the lock is held and the
    two opening lines are logged. *)
Definition passStart (w : World) : World :=
  let w1 := withLog (log w ++ [InfoStartingMigration]) (withLockHeld true w) in
  withLog (log w1 ++ [InfoFoundTotalJobs (length (scheduledJobs w))]) w1.

(** The world in which a pass ends after its loop counted [n] in [w1]. *)
Definition passEnd (n : nat) (w1 : World) : World :=
  withLockHeld false (withLog (log w1 ++ [InfoMigratedJobs n]) w1).

(** ** Sample worlds *)

(** A payload of the first generation: the flow version inline and no
    [schemaVersion]. *)
Definition v1Payload : obj :=
  {[ "flowVersion" := VObj {[ "id" := VStr "fv1"; "flowId" := VStr "f1" ]};
     "projectId" := VStr "p1";
     "triggerType" := VStr "SCHEDULE" ]}.

(** The same at [schemaVersion: 1], with an [executionType] of its own. *)
Definition v1PayloadResume : obj :=
  <[ "schemaVersion" := VNum 1 ]>
    (<[ "executionType" := VStr ExecutionType.RESUME ]> v1Payload).

(** A payload without [schemaVersion] and without [flowVersion]. *)
Definition barePayload : obj := {[ "projectId" := VStr "p1" ]}.

Definition v3Payload : obj :=
  {[ "schemaVersion" := VNum 3;
     "flowVersionId" := VStr "fv2";
     "flowId" := VStr "f2";
     "projectId" := VStr "p1";
     "environment" := VStr RunEnvironment.PRODUCTION;
     "executionType" := VStr ExecutionType.RESUME;
     "triggerType" := VStr "SCHEDULE" ]}.

Definition v2Payload : obj := <[ "schemaVersion" := VNum 2 ]> v3Payload.

Definition v4Payload : obj :=
  {[ "schemaVersion" := VNum 4;
     "flowVersionId" := VStr "fv1";
     "jobType" := VStr RepeatableJobType.EXECUTE_TRIGGER ]}.

Definition everyMinute : RepeatOptions :=
  mkRepeat (Some "UTC") (Some "* * * * *").

Definition v1Job : Job := mkJob (Some v1Payload) (Some everyMinute) (Some "k1").
Definition v1JobResume : Job :=
  mkJob (Some v1PayloadResume) (Some everyMinute) (Some "k1").
Definition bareJob : Job := mkJob (Some barePayload) (Some everyMinute) None.
Definition v2JobOnce : Job := mkJob (Some v2Payload) None None.
Definition v3Job : Job := mkJob (Some v3Payload) (Some everyMinute) (Some "k2").
Definition v4Job : Job := mkJob (Some v4Payload) (Some everyMinute) (Some "k1").

Definition flow1 : Flow := mkFlow "f1" (Some "fv1") None.

Definition worldOf (free : bool) (side : gmap string string)
    (keys : gset string) (jobs : list MaybeJob) (flows : list Flow) : World :=
  mkWorld free false side keys jobs flows true [].

(** One job of the first generation, its flow published. *)
Definition happyWorld : World :=
  worldOf true ∅ {[ "k1" ]} [Some v1Job] [flow1].

(** The same job, but no flow has its version published. *)
Definition orphanWorld : World :=
  worldOf true ∅ {[ "k1" ]} [Some v1Job] [].

(** The same job with a payload that says [RESUME]. *)
Definition resumeWorld : World :=
  worldOf true ∅ {[ "k1" ]} [Some v1JobResume] [flow1].

(** A payload the first block cannot read, ahead of a job at version 3. *)
Definition brokenWorld : World :=
  worldOf true ∅ {[ "k2" ]} [Some bareJob; Some v3Job] [flow1].

(** A one-off job at version 2 ahead of a job at version 3. *)
Definition mixedWorld : World :=
  worldOf true ∅ {[ "k1"; "k2" ]}
          [Some v2JobOnce; None; Some v3Job; Some v1Job; Some v4Job] [flow1].

(** The lock is taken elsewhere. *)
Definition lockedWorld : World :=
  worldOf false ∅ {[ "k1" ]} [Some v1Job] [flow1].

(** A side mapping whose key the broker does not know. *)
Definition staleWorld : World :=
  worldOf true {[ repeatingJobKey "fv1" := "k0" ]} ∅ [] [flow1].

(** Nothing is known about the id. *)
Definition emptyWorld : World := worldOf true ∅ ∅ [] [].


(** ** Adding a job *)

(** [AddParams<JobType>] of [../queue] (not among the sources), as [add]
    takes it apart: the tag and, for each tag, the fields read. *)
Inductive AddParams : Type :=
  | REPEATING (id : string) (data : obj) (cronExpression timezone : string)
  | DELAYED (id : string) (data : obj) (delay : Z)
  | ONE_TIME (id : string) (data : obj) (priority : string).

(** The options [add] hands to the broker. *)
Record JobsOptions : Type := mkJobsOptions {
  optJobId : string;
  optRepeat : option RepeatOptions;
  optDelay : option Z;
  optPriority : option Z;
}.

(** [client.set(key, value)] *)
Definition clientSet (key value : string) : M unit := λ w,
  (withRedis (<[key := value]> (redis w)) w, Ok ()).

Section Add.

(** [scheduledJobQueue.add] and [oneTimeJobQueue.add] of bullmq: what the
    broker does with a job is not this module's, and is left open. *)
Variable scheduledJobQueueAdd : string → obj → JobsOptions → M Job.
Variable oneTimeJobQueueAdd : string → obj → JobsOptions → M Job.

(** [redisQueueManager.add]. The lines it writes to the logger are not
    among the events the world records. *)
Definition add (params : AddParams) : M unit :=
  match params with
  | REPEATING id data cronExpression timezone =>
      job ← scheduledJobQueueAdd id data
               (mkJobsOptions id
                  (Some (mkRepeat (Some timezone) (Some cronExpression)))
                  None None);
      match repeatJobKey job with
      | None => mret ()
      | Some key => clientSet (repeatingJobKey id) key
      end
  | DELAYED id data delay =>
      scheduledJobQueueAdd id data (mkJobsOptions id None (Some delay) None);;
      mret ()
  | ONE_TIME id data priority =>
      oneTimeJobQueueAdd id data
        (mkJobsOptions id None None
           (Some (if bool_decide (priority = "high") then 1 else 2)));;
      mret ()
  end.

(** The call to the broker that [add] makes for [params]. *)
Definition brokerCall (params : AddParams) : M Job :=
  match params with
  | REPEATING id data cronExpression timezone =>
      scheduledJobQueueAdd id data
        (mkJobsOptions id
           (Some (mkRepeat (Some timezone) (Some cronExpression)))
           None None)
  | DELAYED id data delay =>
      scheduledJobQueueAdd id data (mkJobsOptions id None (Some delay) None)
  | ONE_TIME id data priority =>
      oneTimeJobQueueAdd id data
        (mkJobsOptions id None None
           (Some (if bool_decide (priority = "high") then 1 else 2)))
  end.

End Add.

(** A broker for the samples: the job is listed last on the scheduled
    queue; with repeat options its schedule is registered under the key
    [id:tz:pattern], which the job carries. *)
Definition sampleQueueAdd (id : string) (data : obj) (opts : JobsOptions)
    : M Job := λ w,
  match optRepeat opts with
  | Some r =>
      let key := id +:+ ":" +:+ default "" (tz r) +:+ ":"
                 +:+ default "" (pattern r) in
      let job := mkJob (Some data) (Some r) (Some key) in
      (withScheduledJobs (scheduledJobs w ++ [Some job])
         (withRepeatKeys ({[ key ]} ∪ repeatKeys w) w),
       Ok job)
  | None =>
      let job := mkJob (Some data) None None in
      (withScheduledJobs (scheduledJobs w ++ [Some job]) w, Ok job)
  end.

(** A broker that is out of reach. *)
Definition failingQueueAdd (id : string) (data : obj) (opts : JobsOptions)
    : M Job := throw PersistenceError.

(** The id [add] is called for. *)
Definition idOf (params : AddParams) : string :=
  match params with
  | REPEATING id _ _ _ | DELAYED id _ _ | ONE_TIME id _ _ => id
  end.

(** The options of a repeating job. *)
Definition repeatingOptions (id cronExpression timezone : string)
    : JobsOptions :=
  mkJobsOptions id (Some (mkRepeat (Some timezone) (Some cronExpression)))
                None None.

(** [client.set(repeatingJobKey(id), key)] seen from the world. *)
Definition remembered (id key : string) (w : World) : World :=
  withRedis (<[repeatingJobKey id := key]> (redis w)) w.

(** ** Summaries of piece metadata
    ([pieces/piece-metadata-service/index.ts]) *)

(** A piece's metadata, as far as the summary reads it. The actions and the
    triggers are objects keyed by name: each is given by its properties in
    the order [Object.keys] and [Object.values] list them. [rest] stands for
    the other properties, which the spread copies. *)
Record PieceMetadata : Type := mkPieceMetadata {
  name : string;
  actions : list (string * value);
  triggers : list (string * value);
  rest : obj;
}.

Module SuggestionType.
Inductive t : Set :=
  | ACTION
  | TRIGGER
  | ACTION_AND_TRIGGER.
End SuggestionType.

#[global] Instance suggestionType_eq_dec : EqDecision SuggestionType.t.
Proof. solve_decision. Defined.

(** [PieceMetadataModelSummary]: the spread of the entity, with [actions]
    and [triggers] overwritten by numbers and the two lists of
    suggestions. *)
Record PieceMetadataModelSummary : Type := mkSummary {
  spread : PieceMetadata;
  actionsCount : nat;
  triggersCount : nat;
  suggestedActions : option (list value);
  suggestedTriggers : option (list value);
}.

(** A call that returns or throws an [Error] with a message. *)
Inductive thrown (A : Type) : Type :=
  | Returns (a : A)
  | Throws (message : string).
Arguments Returns {A} a.
Arguments Throws {A} message.

(** [assertNotNullOrUndefined(value, message)] of [@activepieces/shared] (not
    among the sources): an assertion function, after which the value is
    used as defined; it throws an error with the message when the value is
    nil. *)
Definition assertNotNullOrUndefined {A : Type} (x : option A)
    (message : string) : thrown A :=
  match x with
  | Some a => Returns a
  | None => Throws message
  end.

(** [suggestionType === a || suggestionType === b] *)
Definition isSuggestion (suggestionType : option SuggestionType.t)
    (a b : SuggestionType.t) : bool :=
  match suggestionType with
  | Some s => bool_decide (s = a) || bool_decide (s = b)
  | None => false
  end.

(** The callback of [pieceMetadataEntityList.map]. *)
Definition summarize (originalMetadataList : list PieceMetadata)
    (suggestionType : option SuggestionType.t)
    (pieceMetadataEntity : PieceMetadata)
    : thrown PieceMetadataModelSummary :=
  let originalMetadata :=
    List.find (λ p, bool_decide (name p = name pieceMetadataEntity))
              originalMetadataList in
  match assertNotNullOrUndefined originalMetadata
          ("Original metadata not found for " +:+ name pieceMetadataEntity)
  with
  | Throws message => Throws message
  | Returns originalMetadata =>
      Returns
        (mkSummary pieceMetadataEntity
           (length (actions originalMetadata))
           (length (triggers originalMetadata))
           (if isSuggestion suggestionType SuggestionType.ACTION
                            SuggestionType.ACTION_AND_TRIGGER
            then Some (actions pieceMetadataEntity).*2 else None)
           (if isSuggestion suggestionType SuggestionType.TRIGGER
                            SuggestionType.ACTION_AND_TRIGGER
            then Some (triggers pieceMetadataEntity).*2 else None))
  end.

(** [array.map(f)] for a callback that may throw: the elements are taken in
    order and the first throw ends the call. *)
Fixpoint mapThrowing {A B : Type} (f : A → thrown B) (l : list A)
    : thrown (list B) :=
  match l with
  | [] => Returns []
  | x :: l =>
      match f x with
      | Throws message => Throws message
      | Returns y =>
          match mapThrowing f l with
          | Throws message => Throws message
          | Returns ys => Returns (y :: ys)
          end
      end
  end.

Definition toPieceMetadataModelSummary
    (pieceMetadataEntityList originalMetadataList : list PieceMetadata)
    (suggestionType : option SuggestionType.t)
    : thrown (list PieceMetadataModelSummary) :=
  mapThrowing (summarize originalMetadataList suggestionType)
              pieceMetadataEntityList.

(** The first piece of [l] with the name of [e]. *)
Definition originalOf (l : list PieceMetadata) (e : PieceMetadata)
    : option PieceMetadata :=
  List.find (λ p, bool_decide (name p = name e)) l.

(** Sample pieces: the full metadata of two pieces, and an entity of the
    first one cut down to one action. *)
Definition slackPiece : PieceMetadata :=
  mkPieceMetadata "@activepieces/piece-slack"
    [("send_message", VStr "Send message"); ("add_reaction", VStr "React")]
    [("new_message", VStr "New message")] ∅.

Definition jsonPiece : PieceMetadata :=
  mkPieceMetadata "@activepieces/piece-json"
    [("convert_json_to_text", VStr "To text");
     ("convert_text_to_json", VStr "To JSON")] [] ∅.

Definition slackHit : PieceMetadata :=
  mkPieceMetadata "@activepieces/piece-slack"
    [("send_message", VStr "Send message")] [] ∅.


(** ** More vocabulary *)

(** Two entries of the scheduled queue that differ at most in their
    payload: both undefined, or both records with the same repeat options
    and the same [repeatJobKey], with or without payload alike. *)
Definition sameShape (mj mj' : MaybeJob) : Prop :=
  match mj, mj' with
  | None, None => True
  | Some j, Some j' =>
      repeat j' = repeat j ∧ repeatJobKey j' = repeatJobKey j
      ∧ isNilOpt (data j') = isNilOpt (data j)
  | _, _ => False
  end.

(** From [w] to [w'] nothing has changed but payloads, schedules of flow
    rows, the log and the holding of the lock. *)
Record payloadsOnly (w w' : World) : Prop := mkPayloadsOnly {
  po_lockFree : lockFree w' = lockFree w;
  po_redis : redis w' = redis w;
  po_repeatKeys : repeatKeys w' = repeatKeys w;
  po_dbOnline : dbOnline w' = dbOnline w;
  po_flowKeys : flowKeys (flowTable w') = flowKeys (flowTable w);
  po_records : Forall2 sameShape (scheduledJobs w) (scheduledJobs w');
}.

(** The job object [h] is an object of the record at its position, up to
    the payload. *)
Definition handleFits (h : JobHandle) (w : World) : Prop :=
  ∃ j0, scheduledJobs w !! h.1 = Some (Some j0)
        ∧ sameShape (Some j0) (Some h.2).

(** The state of the loop body: its job object fits and has the payload
    at hand. *)
Definition fits (st : LoopState) (w : World) : Prop :=
  handleFits st.1.1 w ∧ data st.1.1.2 = Some st.1.2.

(** No block of the loop body applies to the payload [d]: its
    [schemaVersion] is not undefined and is none of 1, 2 and 3. *)
Definition noBlockApplies (d : obj) : bool :=
  negb (isV1 d) && negb (strictEqNum (schemaVersion d) 2)
  && negb (strictEqNum (schemaVersion d) 3).

(** An entry of the scheduled queue that a pass has no block for: an
    undefined entry, a record without payload, or a payload to which no
    block applies (the latest version among them). *)
Definition outOfReach (mj : MaybeJob) : bool :=
  match mj with
  | None => true
  | Some j =>
      match data j with
      | None => true
      | Some d => noBlockApplies d
      end
  end.

(** The payload [d'] has the properties of [d], but for [schemaVersion],
    [jobType] and [executionType]. *)
Definition keepsOthers (d d' : obj) : Prop :=
  ∀ k : string,
    k ≠ "schemaVersion" → k ≠ "jobType" → k ≠ "executionType" →
    d' !! k = d !! k.

(** The names of the properties of a normalised payload. *)
Definition normalizedKeys : gset string :=
  {[ "schemaVersion"; "flowVersionId"; "flowId"; "projectId";
     "environment"; "executionType"; "triggerType" ]}.

(** The jobs the filter selects among [jobs], the first of which stands at
    position [k] of the queue. *)
Definition jobsFrom (k : nat) (jobs : list MaybeJob) : list JobHandle :=
  omap (λ h : nat * MaybeJob,
          if jobDataSchemaVersionIsNotLatest h.2
          then (λ j, (h.1, j)) <$> h.2
          else None)
       (imap (λ i, pair (k + i)%nat) jobs).

(** In every world with the flow table of [w] in the same state of
    service, the loop body throws [e] on the job object [h]. *)
Definition throwsAgain (e : error) (h : JobHandle) (w : World) : Prop :=
  ∀ (n : nat) (w2 : World),
    dbOnline w2 = dbOnline w → ∃ w3, migrateJob h n w2 = (w3, Err e).

(** ** More sample worlds *)

(** A payload of a version the module does not know. *)
Definition futurePayload : obj :=
  {[ "schemaVersion" := VNum 5; "flowVersionId" := VStr "fv9" ]}.

Definition futureJob : Job :=
  mkJob (Some futurePayload) (Some everyMinute) (Some "k9").

(** A job of a later release, ahead of a payload the first block cannot
    read. *)
Definition futureWorld : World :=
  worldOf true ∅ {[ "k9" ]} [Some futureJob; Some bareJob] [flow1].

(** The job of [happyWorld] after the first block. *)
Definition v2JobRepeat : Job := withData (v2Of v1Payload) v1Job.

(** A delayed run of the flow version ["fv1"]: its payload names the
    version, and it has neither repeat options nor a [repeatJobKey]. *)
Definition delayedPayload : obj :=
  {[ "schemaVersion" := VNum 4;
     "flowVersionId" := VStr "fv1";
     "runId" := VStr "run-42";
     "jobType" := VStr RepeatableJobType.DELAYED_FLOW ]}.

Definition delayedJob : Job := mkJob (Some delayedPayload) None None.

(** The side mapping is gone, and a delayed run of the same flow version
    is listed ahead of the repeating job. *)
Definition shadowedWorld : World :=
  worldOf true ∅ {[ "k1" ]} [Some delayedJob; Some v4Job] [flow1].

(** Two ids in the side mapping, one schedule each. *)
Definition twoIdsWorld : World :=
  worldOf true
    {[ repeatingJobKey "fv1" := "k1"; repeatingJobKey "fv2" := "k2" ]}
    {[ "k1"; "k2" ]} [Some v4Job; Some v3Job] [flow1].

(** * Properties *)

(** ** How the world evolves during a pass *)

Section Evolution.

Implicit Types (w : World) (P : nat → Prop).

Lemma evolves_refl P w : evolves P w w.
Proof. by constructor. Qed.

Lemma evolves_trans P w1 w2 w3 :
  evolves P w1 w2 → evolves P w2 w3 → evolves P w1 w3.
Proof.
  intros H12 H23. constructor.
  - by rewrite (ev_lockFree _ _ _ H23), (ev_lockFree _ _ _ H12).
  - by rewrite (ev_lockHeld _ _ _ H23), (ev_lockHeld _ _ _ H12).
  - by rewrite (ev_redis _ _ _ H23), (ev_redis _ _ _ H12).
  - by rewrite (ev_repeatKeys _ _ _ H23), (ev_repeatKeys _ _ _ H12).
  - by rewrite (ev_dbOnline _ _ _ H23), (ev_dbOnline _ _ _ H12).
  - by rewrite (ev_flowKeys _ _ _ H23), (ev_flowKeys _ _ _ H12).
  - by rewrite (ev_length _ _ _ H23), (ev_length _ _ _ H12).
  - intros j Hj.
    by rewrite (ev_frame _ _ _ H23 j Hj), (ev_frame _ _ _ H12 j Hj).
Qed.

Lemma evolves_mono P Q w w' :
  (∀ j, P j → Q j) → evolves P w w' → evolves Q w w'.
Proof. intros HPQ []. constructor; auto. Qed.

Lemma preserves_weaken {A} P (m : M A) (Q R : A → Prop) :
  (∀ a, Q a → R a) → preserves P m Q → preserves P m R.
Proof. intros HQR Hm w. destruct (Hm w). split; auto. Qed.

Lemma preserves_ret {A} P (a : A) (Q : A → Prop) :
  Q a → preserves P (mret a) Q.
Proof.
  intros Ha w. split; [apply evolves_refl|].
  intros a' [= <-]. exact Ha.
Qed.

Lemma preserves_throw {A} P e (Q : A → Prop) : preserves P (throw e) Q.
Proof. intros w. split; [apply evolves_refl|]. intros a [=]. Qed.

Lemma preserves_bind {A B} P (m : M A) (f : A → M B) Q R :
  preserves P m Q → (∀ a, Q a → preserves P (f a) R) →
  preserves P (m ≫= f) R.
Proof.
  intros Hm Hf w. unfold mbind, M_bind.
  destruct (Hm w) as [Hev HQ].
  destruct (m w) as [w1 [a|e]]; simpl in *; [|split; [done|intros ? [=]]].
  destruct (Hf a (HQ a eq_refl) w1) as [Hev' HR].
  split; [|done]. eapply evolves_trans; eauto.
Qed.

Lemma preserves_logger P e : preserves P (logger e) (λ _, True).
Proof. intros w. split; [by constructor|done]. Qed.

Lemma preserves_readProp P v k : preserves P (readProp v k) (λ _, True).
Proof.
  intros w. unfold readProp. split; [|done].
  destruct (isNil v); apply evolves_refl.
Qed.

Lemma preserves_updateData P (job : JobHandle) d :
  P job.1 →
  preserves P (updateData job d)
            (λ job', job'.1 = job.1 ∧ data job'.2 = Some d
                     ∧ repeat job'.2 = repeat job.2).
Proof.
  intros HP w. split.
  - constructor; simpl; try done.
    + apply length_insert.
    + intros j Hj. apply list_lookup_insert_ne. intros Heq. apply Hj.
      by rewrite <-Heq.
  - by intros job' [= <-].
Qed.

Lemma preserves_findOneBy P key :
  preserves P (findOneByPublishedVersionId key) (λ _, True).
Proof.
  intros w. unfold findOneByPublishedVersionId. split; [|done].
  destruct (dbOnline w); apply evolves_refl.
Qed.

Lemma flowKeys_setSchedule id s t :
  flowKeys (map (setSchedule id s) t) = flowKeys t.
Proof.
  unfold flowKeys. rewrite map_map. apply map_ext.
  intros f. unfold setSchedule. by case_bool_decide.
Qed.

Lemma preserves_updateSchedule P id s :
  preserves P (updateSchedule id s) (λ _, True).
Proof.
  intros w. unfold updateSchedule. split; [|done].
  destruct (dbOnline w); [|apply evolves_refl].
  constructor; simpl; try done. apply flowKeys_setSchedule.
Qed.

(** One step of a proof that a sequence of calls stays within [P]. *)
Ltac preserves_step :=
  first
    [ eapply preserves_bind; [|intros ? ?]
    | eapply preserves_weaken; [|apply preserves_logger]; [done|]
    | apply preserves_logger | apply preserves_readProp
    | apply preserves_findOneBy | apply preserves_updateSchedule
    | apply preserves_throw
    | by apply preserves_ret
    | match goal with
      | |- preserves _ (match ?x with _ => _ end) _ => destruct x
      | |- preserves _ (if ?x then _ else _) _ => destruct x
      end ].

Lemma preserves_updateCron P job :
  preserves P (updateCronExpressionOfRedisToPostgresTable job) (λ _, True).
Proof.
  unfold updateCronExpressionOfRedisToPostgresTable.
  destruct (repeat job ≫= tz), (repeat job ≫= pattern);
    repeat preserves_step.
Qed.

Lemma preserves_migrateV1ToV2 P st :
  P st.1.1.1 → preserves P (migrateV1ToV2 st) (sameRecord st.1.1.1).
Proof.
  destruct st as [[job d] n]. simpl. intros HP. unfold migrateV1ToV2.
  destruct (_ || _); [|by apply preserves_ret].
  do 2 (eapply preserves_bind; [apply preserves_readProp|intros ? _]).
  eapply preserves_bind; [by apply preserves_updateData|].
  intros job' (Hi & _). by apply preserves_ret.
Qed.

Lemma preserves_migrateV2ToV3 P st :
  P st.1.1.1 → preserves P (migrateV2ToV3 st) (sameRecord st.1.1.1).
Proof.
  destruct st as [[job d] n]. simpl. intros HP. unfold migrateV2ToV3.
  destruct (strictEqNum _ _); [|by apply preserves_ret].
  eapply preserves_bind; [apply preserves_updateCron|intros [] _].
  - eapply preserves_bind; [by apply preserves_updateData|].
    intros job' (Hi & _). by apply preserves_ret.
  - by apply preserves_ret.
Qed.

Lemma preserves_migrateV3ToV4 P st :
  P st.1.1.1 → preserves P (migrateV3ToV4 st) (sameRecord st.1.1.1).
Proof.
  destruct st as [[job d] n]. simpl. intros HP. unfold migrateV3ToV4.
  destruct (strictEqNum _ _); [|by apply preserves_ret].
  eapply preserves_bind; [by apply preserves_updateData|].
  intros job' (Hi & _). by apply preserves_ret.
Qed.

Lemma preserves_migrateJob P job n :
  P job.1 → preserves P (migrateJob job n) (λ _, True).
Proof.
  intros HP. unfold migrateJob.
  destruct (data job.2) as [d|]; [|apply preserves_throw].
  eapply preserves_bind; [by apply preserves_migrateV1ToV2|].
  intros st1 Hst1. red in Hst1. cbn in Hst1.
  assert (HP1 : P st1.1.1.1) by (by rewrite Hst1).
  eapply preserves_bind; [by apply preserves_migrateV2ToV3|].
  intros st2 Hst2. red in Hst2.
  assert (HP2 : P st2.1.1.1) by (by rewrite Hst2).
  eapply preserves_bind; [by apply preserves_migrateV3ToV4|].
  intros st3 _. by apply preserves_ret.
Qed.

Lemma preserves_forEachJob P jobs n :
  (∀ job, job ∈ jobs → P job.1) →
  preserves P (forEachJob jobs n) (λ _, True).
Proof.
  revert n. induction jobs as [|job rest IH]; intros n HP; simpl.
  - by apply preserves_ret.
  - eapply preserves_bind.
    + apply preserves_migrateJob, HP. by left.
    + intros n' _. apply IH. intros h Hh. apply HP. by right.
Qed.

End Evolution.

(** ** Payloads *)

Section Payloads.

Implicit Types (d : obj) (v : option value) (k : string).

Lemma lookup_setProp_eq k v d : setProp k v d !! k = v.
Proof.
  destruct v; simpl; [apply lookup_insert_eq|apply lookup_delete_eq].
Qed.

Lemma lookup_setProp_ne k k' v d : k ≠ k' → setProp k v d !! k' = d !! k'.
Proof.
  intros Hne.
  destruct v; simpl; [by apply lookup_insert_ne|by apply lookup_delete_ne].
Qed.

Lemma strictEqNum_true v n : strictEqNum v n = true ↔ v = Some (VNum n).
Proof.
  unfold strictEqNum. destruct v as [[]|]; try (split; [done|intros [=]]).
  rewrite bool_decide_eq_true. split; [by intros ->|by intros [=]].
Qed.

Lemma strictEqStr_true v s : strictEqStr v s = true ↔ v = Some (VStr s).
Proof.
  unfold strictEqStr. destruct v as [[]|]; try (split; [done|intros [=]]).
  rewrite bool_decide_eq_true. split; [by intros ->|by intros [=]].
Qed.

Lemma normalizedJobData_schemaVersion a b c e :
  schemaVersion (normalizedJobData a b c e) = Some (VNum 2).
Proof. apply lookup_setProp_eq. Qed.

Lemma normalizedJobData_flowVersionId a b c e :
  normalizedJobData a b c e !! "flowVersionId" = a.
Proof.
  unfold normalizedJobData.
  rewrite lookup_setProp_ne by done. apply lookup_setProp_eq.
Qed.

Lemma normalizedJobData_environment a b c e :
  normalizedJobData a b c e !! "environment"
  = Some (VStr RunEnvironment.PRODUCTION).
Proof.
  unfold normalizedJobData.
  rewrite !lookup_setProp_ne by done. apply lookup_setProp_eq.
Qed.

Lemma normalizedJobData_executionType a b c e :
  normalizedJobData a b c e !! "executionType"
  = Some (VStr ExecutionType.BEGIN).
Proof.
  unfold normalizedJobData.
  rewrite !lookup_setProp_ne by done. apply lookup_setProp_eq.
Qed.

Lemma normalizedJobData_jobType a b c e :
  normalizedJobData a b c e !! "jobType" = None.
Proof.
  unfold normalizedJobData.
  rewrite !lookup_setProp_ne by done. apply lookup_empty.
Qed.

Lemma renameExecutionType_schemaVersion d :
  schemaVersion (renameExecutionType d) = Some (VNum 4).
Proof.
  unfold renameExecutionType, schemaVersion.
  rewrite lookup_setProp_ne by done.
  repeat match goal with
         | |- context [if ?b then _ else _] => destruct b
         end;
    rewrite ?lookup_setProp_ne by done; apply lookup_setProp_eq.
Qed.

Lemma renameExecutionType_executionType d :
  renameExecutionType d !! "executionType" = None.
Proof. apply lookup_setProp_eq. Qed.

Lemma renameExecutionType_jobType d :
  renameExecutionType d !! "jobType"
  = if strictEqStr (d !! "executionType") ExecutionType.BEGIN
    then Some (VStr RepeatableJobType.EXECUTE_TRIGGER)
    else if strictEqStr (d !! "executionType") ExecutionType.RESUME
         then Some (VStr RepeatableJobType.DELAYED_FLOW)
         else d !! "jobType".
Proof.
  unfold renameExecutionType.
  rewrite lookup_setProp_ne by done.
  rewrite (lookup_setProp_ne "schemaVersion" "executionType") by done.
  destruct (strictEqStr (d !! "executionType") ExecutionType.BEGIN) eqn:Hb.
  - rewrite (lookup_setProp_ne "jobType" "executionType") by done.
    rewrite (lookup_setProp_ne "schemaVersion" "executionType") by done.
    apply strictEqStr_true in Hb. rewrite Hb. simpl.
    apply lookup_insert_eq.
  - rewrite (lookup_setProp_ne "schemaVersion" "executionType") by done.
    destruct (strictEqStr (d !! "executionType") ExecutionType.RESUME).
    + apply lookup_setProp_eq.
    + by rewrite lookup_setProp_ne.
Qed.

Lemma v2Of_version_is_2 d : strictEqNum (schemaVersion (v2Of d)) 2 = true.
Proof.
  unfold v2Of. by rewrite normalizedJobData_schemaVersion.
Qed.

Lemma v2Of_version_is_not_3 d : strictEqNum (schemaVersion (v2Of d)) 3 = false.
Proof.
  unfold v2Of. by rewrite normalizedJobData_schemaVersion.
Qed.

Lemma bumped_version_is_3 d :
  strictEqNum (schemaVersion (setProp "schemaVersion" (Some (VNum 3)) d)) 3
  = true.
Proof. unfold schemaVersion. by rewrite lookup_setProp_eq. Qed.

Lemma v4Of_schemaVersion d : schemaVersion (v4Of d) = Some (VNum 4).
Proof. apply renameExecutionType_schemaVersion. Qed.

Lemma v4Of_executionType d : v4Of d !! "executionType" = None.
Proof. apply renameExecutionType_executionType. Qed.

Lemma v4Of_jobType d :
  v4Of d !! "jobType" = Some (VStr RepeatableJobType.EXECUTE_TRIGGER).
Proof.
  unfold v4Of. rewrite renameExecutionType_jobType.
  rewrite lookup_setProp_ne by done. unfold v2Of.
  by rewrite normalizedJobData_executionType.
Qed.

End Payloads.

(** ** The three blocks of the loop body *)

Section Blocks.

Implicit Types (w : World) (d : obj) (job : JobHandle) (n : nat).

Lemma withLog_nil w : withLog (log w ++ []) w = w.
Proof. destruct w. unfold withLog. simpl. by rewrite app_nil_r. Qed.

Lemma withLog_app w evs evs' :
  withLog (log (withLog (log w ++ evs) w) ++ evs') (withLog (log w ++ evs) w)
  = withLog (log w ++ (evs ++ evs')) w.
Proof. unfold withLog. simpl. by rewrite app_assoc. Qed.

Lemma length_stored i (j : Job) w :
  length (scheduledJobs (stored i j w)) = length (scheduledJobs w).
Proof. apply length_insert. Qed.

Lemma lookup_stored_eq i (j : Job) w :
  (i < length (scheduledJobs w))%nat →
  scheduledJobs (stored i j w) !! i = Some (Some j).
Proof. intros Hi. by apply list_lookup_insert_eq. Qed.

Lemma migrateV1ToV2_skip job d n w :
  isV1 d = false → migrateV1ToV2 (job, d, n) w = (w, Ok (job, d, n)).
Proof. unfold migrateV1ToV2, isV1. by intros ->. Qed.

Lemma migrateV1ToV2_throw job d n w :
  isV1 d = true → isNil (d !! "flowVersion") = true →
  migrateV1ToV2 (job, d, n) w = (w, Err TypeError).
Proof.
  unfold migrateV1ToV2, isV1. intros -> Hnil.
  unfold mbind, M_bind, readProp. by rewrite Hnil.
Qed.

Lemma migrateV1ToV2_run job d n w :
  isV1 d = true → isNil (d !! "flowVersion") = false →
  migrateV1ToV2 (job, d, n) w
  = (stored job.1 (withData (v2Of d) job.2) w,
     Ok ((job.1, withData (v2Of d) job.2), v2Of d, S n)).
Proof.
  unfold migrateV1ToV2, isV1. intros -> Hnil.
  unfold mbind, M_bind, readProp. by rewrite Hnil.
Qed.

Lemma migrateV2ToV3_skip job d n w :
  strictEqNum (schemaVersion d) 2 = false →
  migrateV2ToV3 (job, d, n) w = (w, Ok (job, d, n)).
Proof. unfold migrateV2ToV3. by intros ->. Qed.

Lemma migrateV2ToV3_run job d n w :
  strictEqNum (schemaVersion d) 2 = true →
  migrateV2ToV3 (job, d, n) w
  = match updateCronExpressionOfRedisToPostgresTable job.2 w with
    | (w1, Ok true) =>
        let d3 := setProp "schemaVersion" (Some (VNum 3)) d in
        (stored job.1 (withData d3 job.2) w1,
         Ok ((job.1, withData d3 job.2), d3, S n))
    | (w1, Ok false) => (w1, Ok (job, d, n))
    | (w1, Err e) => (w1, Err e)
    end.
Proof.
  unfold migrateV2ToV3. intros ->. unfold mbind, M_bind.
  by destruct (updateCronExpressionOfRedisToPostgresTable job.2 w)
    as [w1 [[]|e]].
Qed.

Lemma migrateV3ToV4_skip job d n w :
  strictEqNum (schemaVersion d) 3 = false →
  migrateV3ToV4 (job, d, n) w = (w, Ok (job, d, n)).
Proof. unfold migrateV3ToV4. by intros ->. Qed.

Lemma migrateV3ToV4_run job d n w :
  strictEqNum (schemaVersion d) 3 = true →
  migrateV3ToV4 (job, d, n) w
  = (stored job.1 (withData (renameExecutionType d) job.2) w,
     Ok ((job.1, withData (renameExecutionType d) job.2),
         renameExecutionType d, S n)).
Proof. unfold migrateV3ToV4. by intros ->. Qed.

Lemma updateCron_unrepeatable (j : Job) w :
  repeat j ≫= tz = None ∨ repeat j ≫= pattern = None →
  updateCronExpressionOfRedisToPostgresTable j w
  = (withLog (log w ++ [ErrorUnrepeatableJob]) w, Ok false).
Proof.
  unfold updateCronExpressionOfRedisToPostgresTable.
  intros [-> | ->]; [done|]. by destruct (repeat j ≫= tz).
Qed.

Lemma updateCron_repeatable (j : Job) w t p d :
  repeat j ≫= tz = Some t → repeat j ≫= pattern = Some p →
  data j = Some d →
  updateCronExpressionOfRedisToPostgresTable j w
  = if dbOnline w then
      match List.find (publishedAs (d !! "flowVersionId")) (flowTable w) with
      | Some flow =>
          (withFlowTable
             (map (setSchedule (flowId flow) (cronSchedule t p)) (flowTable w))
             w,
           Ok true)
      | None => (w, Ok false)
      end
    else (w, Err PersistenceError).
Proof.
  unfold updateCronExpressionOfRedisToPostgresTable.
  intros -> -> ->. unfold mbind, M_bind, readProp. simpl.
  unfold findOneByPublishedVersionId.
  destruct (dbOnline w) eqn:Hdb; [|done].
  destruct (List.find _ _) as [flow|]; [|done].
  unfold updateSchedule. by rewrite Hdb.
Qed.

Lemma find_publishedAs_flowKeys key (t t' : list Flow) :
  flowKeys t = flowKeys t' →
  isNilOpt (List.find (publishedAs key) t)
  = isNilOpt (List.find (publishedAs key) t').
Proof.
  revert t'. induction t as [|f t IH]; intros [|f' t']; try done.
  simpl. intros [= Hid Hpv Hrest].
  unfold publishedAs at 1 3. rewrite Hpv.
  destruct (match publishedVersionId f' with
            | Some pv => strictEqStr key pv
            | None => false
            end); [done|by apply IH].
Qed.

Lemma declines_inv w (j : Job) :
  declines w j →
  ∃ evs, updateCronExpressionOfRedisToPostgresTable j w
         = (withLog (log w ++ evs) w, Ok false).
Proof.
  unfold declines.
  destruct (repeat j ≫= tz) as [t|] eqn:Ht;
    [destruct (repeat j ≫= pattern) as [p|] eqn:Hp|].
  - destruct (data j) as [d|] eqn:Hd.
    + rewrite (updateCron_repeatable j w t p d) by done.
      destruct (dbOnline w); [|done].
      destruct (List.find _ _); [done|]. intros _.
      exists []. by rewrite withLog_nil.
    + unfold updateCronExpressionOfRedisToPostgresTable.
      by rewrite Ht, Hp, Hd.
  - intros _. exists [ErrorUnrepeatableJob].
    apply updateCron_unrepeatable. by right.
  - intros _. exists [ErrorUnrepeatableJob].
    apply updateCron_unrepeatable. by left.
Qed.

Lemma declines_stable w w2 (j : Job) :
  dbOnline w2 = dbOnline w →
  flowKeys (flowTable w2) = flowKeys (flowTable w) →
  declines w j → declines w2 j.
Proof.
  intros Hdb Hkeys. unfold declines.
  destruct (repeat j ≫= tz) as [t|] eqn:Ht;
    [destruct (repeat j ≫= pattern) as [p|] eqn:Hp|].
  - destruct (data j) as [d|] eqn:Hd.
    + rewrite !(updateCron_repeatable j _ t p d) by done.
      rewrite Hdb. destruct (dbOnline w); [|done].
      pose proof (find_publishedAs_flowKeys (d !! "flowVersionId") _ _ Hkeys)
        as Hfind.
      destruct (List.find _ (flowTable w)), (List.find _ (flowTable w2));
        done.
    + unfold updateCronExpressionOfRedisToPostgresTable.
      by rewrite Ht, Hp, Hd.
  - intros _. rewrite updateCron_unrepeatable; [done|by right].
  - intros _. rewrite updateCron_unrepeatable; [done|by left].
Qed.

Lemma declines_evolves P w w2 (j : Job) :
  evolves P w w2 → declines w j → declines w2 j.
Proof.
  intros Hev. apply declines_stable; [apply Hev|apply Hev].
Qed.

Lemma settledJob_stable w w2 (j : Job) :
  dbOnline w2 = dbOnline w →
  flowKeys (flowTable w2) = flowKeys (flowTable w) →
  settledJob w j → settledJob w2 j.
Proof.
  intros Hdb Hkeys. unfold settledJob. destruct (data j); [|done].
  intros (H1 & H3 & H2). repeat split; [done..|].
  intros Hv. eapply declines_stable; eauto.
Qed.

Lemma settledJob_evolves P w w2 (j : Job) :
  evolves P w w2 → settledJob w j → settledJob w2 j.
Proof. intros Hev. apply settledJob_stable; apply Hev. Qed.

Lemma evolves_withLog P w evs : evolves P w (withLog (log w ++ evs) w).
Proof. by constructor. Qed.

End Blocks.

(** ** One job through the loop body *)

Section OneJob.

Implicit Types (w : World) (d : obj) (st : LoopState) (i n : nat).

Lemma inSync_stored i (j j' : Job) d n w :
  scheduledJobs w !! i = Some (Some j) →
  inSync i ((i, withData d j'), d, n) (stored i (withData d j') w).
Proof.
  intros Hi. repeat split. simpl.
  apply list_lookup_insert_eq. by eapply lookup_lt_Some.
Qed.

Lemma isV1_schemaVersion d (k : Z) :
  schemaVersion d = Some (VNum k) → k ≠ 1 → isV1 d = false.
Proof.
  intros Hd Hk. unfold isV1. rewrite Hd. simpl. by apply bool_decide_eq_false.
Qed.

Lemma migrateV1ToV2_post i st w w1 st1 :
  inSync i st w → migrateV1ToV2 st w = (w1, Ok st1) →
  inSync i st1 w1 ∧ isV1 st1.1.2 = false.
Proof.
  destruct st as [[job d] n]. intros (Hidx & Hrec & Hdata).
  simpl in Hidx, Hrec, Hdata. destruct (isV1 d) eqn:Hv1.
  - destruct (isNil (d !! "flowVersion")) eqn:Hfv.
    + by rewrite migrateV1ToV2_throw.
    + rewrite migrateV1ToV2_run by done. intros [= <- <-]. rewrite Hidx.
      split; [by eapply inSync_stored|]. simpl.
      eapply isV1_schemaVersion; [apply normalizedJobData_schemaVersion|done].
  - rewrite migrateV1ToV2_skip by done. by intros [= <- <-].
Qed.

Lemma migrateV2ToV3_post i st w w1 st1 :
  inSync i st w → isV1 st.1.2 = false →
  migrateV2ToV3 st w = (w1, Ok st1) →
  inSync i st1 w1 ∧ isV1 st1.1.2 = false
  ∧ (strictEqNum (schemaVersion st1.1.2) 2 = true → declines w1 st1.1.1.2).
Proof.
  destruct st as [[job d] n]. intros (Hidx & Hrec & Hdata) Hv1.
  simpl in Hidx, Hrec, Hdata, Hv1.
  destruct (strictEqNum (schemaVersion d) 2) eqn:Hv2.
  - rewrite migrateV2ToV3_run by done.
    destruct (preserves_updateCron (λ _, False) job.2 w) as [Hev _].
    destruct (updateCronExpressionOfRedisToPostgresTable job.2 w)
      as [w2 [[]|e]] eqn:Hcron; [| |done]; simpl in Hev.
    + intros [= <- <-]. rewrite Hidx. split; [|split].
      * eapply inSync_stored. rewrite (ev_frame _ _ _ Hev) by tauto. done.
      * cbn [fst snd].
        eapply isV1_schemaVersion; [apply lookup_insert_eq|done].
      * cbn [fst snd]. unfold schemaVersion. by rewrite lookup_insert_eq.
    + intros [= <- <-]. split; [|split; [done|]].
      * repeat split; [done| |done]. simpl.
        rewrite (ev_frame _ _ _ Hev) by tauto. done.
      * intros _. simpl. eapply declines_evolves; [exact Hev|].
        unfold declines. by rewrite Hcron.
  - rewrite migrateV2ToV3_skip by done. intros [= <- <-].
    split; [done|split; [done|]]. simpl. by rewrite Hv2.
Qed.

Lemma migrateV3ToV4_post i st w w1 st1 :
  inSync i st w → isV1 st.1.2 = false →
  (strictEqNum (schemaVersion st.1.2) 2 = true → declines w st.1.1.2) →
  migrateV3ToV4 st w = (w1, Ok st1) →
  inSync i st1 w1 ∧ settledJob w1 st1.1.1.2.
Proof.
  destruct st as [[job d] n]. intros (Hidx & Hrec & Hdata) Hv1 Hv2.
  simpl in Hidx, Hrec, Hdata, Hv1, Hv2.
  destruct (strictEqNum (schemaVersion d) 3) eqn:Hv3.
  - rewrite migrateV3ToV4_run by done. intros [= <- <-]. rewrite Hidx.
    split; [by eapply inSync_stored|]. unfold settledJob. simpl.
    rewrite renameExecutionType_schemaVersion. simpl.
    split; [|done].
    eapply isV1_schemaVersion;
      [apply renameExecutionType_schemaVersion|done].
  - rewrite migrateV3ToV4_skip by done. intros [= <- <-].
    split; [done|]. unfold settledJob. simpl. by rewrite Hdata.
Qed.

Lemma migrateJob_eq i (job : Job) d n w :
  data job = Some d →
  migrateJob (i, job) n w
  = match migrateV1ToV2 (i, job, d, n) w with
    | (w1, Ok st1) =>
        match migrateV2ToV3 st1 w1 with
        | (w2, Ok st2) =>
            match migrateV3ToV4 st2 w2 with
            | (w3, Ok st3) => (w3, Ok st3.2)
            | (w3, Err e) => (w3, Err e)
            end
        | (w2, Err e) => (w2, Err e)
        end
    | (w1, Err e) => (w1, Err e)
    end.
Proof.
  intros Hd. unfold migrateJob. cbn [snd]. rewrite Hd. reflexivity.
Qed.

(** After the loop body has run to its end on the record at [i], a pass has
    nothing left to do on that record. *)
Lemma migrateJob_settles i (job : Job) n w w' n' :
  scheduledJobs w !! i = Some (Some job) →
  migrateJob (i, job) n w = (w', Ok n') →
  ∃ job', scheduledJobs w' !! i = Some (Some job') ∧ settledJob w' job'.
Proof.
  intros Hrec.
  destruct (data job) as [d|] eqn:Hd;
    [|unfold migrateJob; cbn [snd]; by rewrite Hd].
  rewrite (migrateJob_eq i job d) by done.
  destruct (migrateV1ToV2 (i, job, d, n) w) as [w1 [st1|e]] eqn:H1; [|done].
  destruct (migrateV2ToV3 st1 w1) as [w2 [st2|e]] eqn:H2; [|done].
  destruct (migrateV3ToV4 st2 w2) as [w3 [st3|e]] eqn:H3; [|done].
  intros [= <- <-].
  apply (migrateV1ToV2_post i) in H1 as [Hs1 Hv1]; [|done].
  apply (migrateV2ToV3_post i) in H2 as (Hs2 & Hv1' & Hv2); [|done..].
  apply (migrateV3ToV4_post i) in H3 as [(_ & Hs3 & _) Hset]; [|done..].
  eauto.
Qed.

(** What the loop body does to a job at version 1 when it runs to its end:
    the first block rewrites the payload, and then either the backfill
    declines and the job stays at version 2, or the job goes on to
    version 4. *)
Lemma migrateJob_v1_outcome i (job : Job) d n w w' n' :
  (i < length (scheduledJobs w))%nat →
  data job = Some d → isV1 d = true →
  migrateJob (i, job) n w = (w', Ok n') →
  let job2 := withData (v2Of d) job in
  isNil (d !! "flowVersion") = false
  ∧ ((declines (stored i job2 w) job2 ∧ n' = S n
      ∧ scheduledJobs w' !! i = Some (Some job2))
     ∨ ((updateCronExpressionOfRedisToPostgresTable job2 (stored i job2 w)).2
        = Ok true
        ∧ n' = S (S (S n))
        ∧ scheduledJobs w' !! i = Some (Some (withData (v4Of d) job)))).
Proof.
  intros Hi Hd Hv1. rewrite (migrateJob_eq i job d) by done.
  destruct (isNil (d !! "flowVersion")) eqn:Hfv;
    [by rewrite migrateV1ToV2_throw|].
  rewrite migrateV1ToV2_run by done. cbn [fst snd].
  rewrite migrateV2ToV3_run by apply v2Of_version_is_2.
  cbn [fst snd]. set (job2 := withData (v2Of d) job).
  assert (Hev : evolves (λ _, False) (stored i job2 w)
            (updateCronExpressionOfRedisToPostgresTable job2
               (stored i job2 w)).1)
    by apply preserves_updateCron.
  destruct (updateCronExpressionOfRedisToPostgresTable job2 (stored i job2 w))
    as [w2 [[]|e]] eqn:Hcron; [| |done]; cbn [fst] in Hev; cbv zeta.
  - rewrite migrateV3ToV4_run by apply bumped_version_is_3.
    intros [= <- <-]. split; [done|]. right. split; [done|]. split; [done|].
    cbn [fst snd]. apply lookup_stored_eq.
    by rewrite length_stored, (ev_length _ _ _ Hev), length_stored.
  - rewrite migrateV3ToV4_skip.
    + intros [= <- <-]. split; [done|]. left.
      split; [unfold declines; by rewrite Hcron|]. split; [done|].
      rewrite (ev_frame _ _ _ Hev) by tauto. by apply lookup_stored_eq.
    + cbn [fst snd]. apply v2Of_version_is_not_3.
Qed.

(** On a settled record the loop body changes nothing but the log and
    counts nothing. *)
Lemma migrateJob_settled i (job : Job) n w :
  data job ≠ None → settledJob w job →
  ∃ evs, migrateJob (i, job) n w = (withLog (log w ++ evs) w, Ok n).
Proof.
  intros Hd. unfold settledJob.
  destruct (data job) as [d|] eqn:Hdata; [|done]. intros (Hv1 & Hv3 & Hv2).
  rewrite (migrateJob_eq i job d) by done.
  rewrite migrateV1ToV2_skip by done.
  destruct (strictEqNum (schemaVersion d) 2) eqn:Hv.
  - rewrite migrateV2ToV3_run by done. cbn [fst snd].
    destruct (declines_inv _ _ (Hv2 eq_refl)) as [evs ->].
    rewrite migrateV3ToV4_skip by done. by exists evs.
  - rewrite migrateV2ToV3_skip by done.
    rewrite migrateV3ToV4_skip by done. exists []. by rewrite withLog_nil.
Qed.

End OneJob.

(** ** The jobs a pass selects *)

Section Selection.

Implicit Types (jobs : list MaybeJob) (h : JobHandle).

Lemma elem_of_jobsToMigrate jobs h :
  h ∈ jobsToMigrate jobs
  ↔ jobs !! h.1 = Some (Some h.2)
    ∧ jobDataSchemaVersionIsNotLatest (Some h.2) = true.
Proof.
  unfold jobsToMigrate. rewrite list_elem_of_omap. split.
  - intros ([i mj] & Hin & Hsel).
    apply elem_of_lookup_imap in Hin as (i' & mj' & [= -> ->] & Hl).
    cbn [fst snd] in Hsel.
    destruct (jobDataSchemaVersionIsNotLatest mj') eqn:Hp; [|done].
    destruct mj' as [j|]; [|done]. injection Hsel as <-. done.
  - intros [Hl Hp]. exists (h.1, Some h.2). split.
    + apply elem_of_lookup_imap. by exists h.1, (Some h.2).
    + cbn [fst snd]. rewrite Hp. by destruct h.
Qed.

Lemma NoDup_omap_inj {A B} (f : A → option B) (l : list A) :
  (∀ x1 x2 y, f x1 = Some y → f x2 = Some y → x1 = x2) →
  NoDup l → NoDup (omap f l).
Proof.
  intros Hinj. induction 1 as [|x l Hx _ IH]; simpl; [constructor|].
  destruct (f x) as [y|] eqn:Hfx; [|done].
  constructor; [|done]. rewrite list_elem_of_omap.
  intros (x' & Hx' & Hfx'). by rewrite (Hinj x x' y) in Hx.
Qed.

Lemma NoDup_imap_pair {A} (l : list A) : NoDup (imap pair l).
Proof.
  apply (NoDup_fmap_1 fst). rewrite fmap_imap.
  rewrite (imap_ext _ (λ j _, j)) by done.
  rewrite imap_seq_0, list_fmap_id. apply NoDup_seq.
Qed.

Lemma NoDup_jobsToMigrate jobs : NoDup (jobsToMigrate jobs).*1.
Proof.
  apply NoDup_fmap_fst.
  - intros i j1 j2 [H1 _]%elem_of_jobsToMigrate [H2 _]%elem_of_jobsToMigrate.
    cbn [fst snd] in H1, H2. congruence.
  - apply NoDup_omap_inj; [|apply NoDup_imap_pair].
    intros [i1 mj1] [i2 mj2] h. cbn [fst snd].
    destruct (jobDataSchemaVersionIsNotLatest mj1); [|done].
    destruct (jobDataSchemaVersionIsNotLatest mj2); [|done].
    destruct mj1, mj2; simpl; congruence.
Qed.

Lemma selected_has_payload (j : Job) :
  jobDataSchemaVersionIsNotLatest (Some j) = true → data j ≠ None.
Proof. simpl. by destruct (data j). Qed.

(** A record the filter leaves out is settled in any world. *)
Lemma unselected_settled w (j : Job) :
  jobDataSchemaVersionIsNotLatest (Some j) = false → settledJob w j.
Proof.
  unfold settledJob. simpl. destruct (data j) as [d|]; [|done].
  intros Hv%negb_false_iff%strictEqNum_true.
  unfold isV1. rewrite Hv. done.
Qed.

End Selection.

(** ** A whole pass *)

Section Pass.

Implicit Types (w : World) (jobs : list JobHandle) (n : nat).

Lemma migrateScheduledJobs_eq w :
  migrateScheduledJobs w
  = if lockFree w then
      match forEachJob (jobsToMigrate (scheduledJobs w)) 0 (passStart w) with
      | (w1, Ok n) => (passEnd n w1, Ok ())
      | (w1, Err e) => (withLockHeld false w1, Err e)
      end
    else (w, Err LockAcquisitionError).
Proof.
  unfold migrateScheduledJobs, mbind, M_bind, acquireLock.
  destruct (lockFree w); [|done].
  unfold tryFinally, logger, getJobs, release. cbn [scheduledJobs withLog].
  change (forEachJob _ 0 _)
    with (forEachJob (jobsToMigrate (scheduledJobs w)) 0 (passStart w)).
  by destruct (forEachJob _ _ _) as [w1 [n|e]].
Qed.

Lemma forEachJob_cons (job : JobHandle) jobs n w :
  forEachJob (job :: jobs) n w
  = match migrateJob job n w with
    | (w1, Ok n1) => forEachJob jobs n1 w1
    | (w1, Err e) => (w1, Err e)
    end.
Proof. reflexivity. Qed.


(** A job the loop went through was handed to the loop body in a world
    that differs from the loop's first one, and from which the loop's last
    one differs, only away from that job's record. *)
Lemma forEachJob_at jobs n w w' n' (h : JobHandle) :
  NoDup jobs.*1 → h ∈ jobs →
  forEachJob jobs n w = (w', Ok n') →
  ∃ na wa nb wb,
    migrateJob h na wa = (wb, Ok nb)
    ∧ evolves (λ k, k ≠ h.1) w wa ∧ evolves (λ k, k ≠ h.1) wb w'.
Proof.
  revert n w. induction jobs as [|[i j] jobs IH]; intros n w Hnd Hh Hrun.
  { by apply elem_of_nil in Hh. }
  rewrite fmap_cons in Hnd. apply NoDup_cons in Hnd as [Hi Hnd].
  cbn [fst] in Hi. rewrite forEachJob_cons in Hrun.
  destruct (migrateJob (i, j) n w) as [w1 [n1|e]] eqn:Hjob; [|done].
  apply elem_of_cons in Hh as [->|Hh].
  - exists n, w, n1, w1. split; [done|]. split; [apply evolves_refl|].
    assert (Hev : evolves (λ k, k ∈ jobs.*1) w1 (forEachJob jobs n1 w1).1).
    { apply preserves_forEachJob. intros h' Hh'.
      by apply list_elem_of_fmap_2. }
    rewrite Hrun in Hev. eapply evolves_mono; [|exact Hev].
    cbn [fst]. intros k Hk ->. done.
  - destruct (IH n1 w1 Hnd Hh Hrun) as (na & wa & nb & wb & Hat & Hev1 & Hev2).
    exists na, wa, nb, wb. split; [done|]. split; [|done].
    eapply evolves_trans; [|exact Hev1].
    destruct (preserves_migrateJob (λ k, k = i) (i, j) n eq_refl w)
      as [Hev _].
    rewrite Hjob in Hev. eapply evolves_mono; [|exact Hev].
    cbn beta. intros k -> Heq. apply Hi. rewrite Heq.
    by apply list_elem_of_fmap_2.
Qed.

(** Over settled records the loop changes nothing but the log and counts
    nothing. *)
Lemma forEachJob_settled jobs n w :
  (∀ h, h ∈ jobs → data h.2 ≠ None ∧ settledJob w h.2) →
  ∃ evs, forEachJob jobs n w = (withLog (log w ++ evs) w, Ok n).
Proof.
  revert w. induction jobs as [|[i j] jobs IH]; intros w Hall.
  - exists []. by rewrite withLog_nil.
  - destruct (Hall (i, j)) as [Hd Hset]; [by left|].
    destruct (migrateJob_settled i j n w Hd Hset) as [evs Hrun].
    rewrite forEachJob_cons, Hrun.
    destruct (IH (withLog (log w ++ evs) w)) as [evs' ->].
    + intros h Hh. destruct (Hall h) as [Hd' Hset']; [by right|].
      split; [done|].
      apply (settledJob_evolves (λ _, False) w); [apply evolves_withLog|done].
    + exists (evs ++ evs'). by rewrite withLog_app.
Qed.

(** When the loop has run to its end, every record it went through is
    settled. *)
Lemma forEachJob_settles jobs n w w' n' :
  NoDup jobs.*1 →
  (∀ h, h ∈ jobs → scheduledJobs w !! h.1 = Some (Some h.2)) →
  forEachJob jobs n w = (w', Ok n') →
  ∀ h, h ∈ jobs →
    ∃ job', scheduledJobs w' !! h.1 = Some (Some job') ∧ settledJob w' job'.
Proof.
  revert n w. induction jobs as [|[i j] jobs IH]; intros n w Hnd Hrec Hrun h Hh.
  { by apply elem_of_nil in Hh. }
  rewrite fmap_cons in Hnd. apply NoDup_cons in Hnd as [Hi Hnd].
  rewrite forEachJob_cons in Hrun.
  destruct (migrateJob (i, j) n w) as [w1 [n1|e]] eqn:Hjob; [|done].
  destruct (preserves_migrateJob (λ k, k = i) (i, j) n eq_refl w) as [Hev1 _].
  rewrite Hjob in Hev1. cbn [fst] in Hev1.
  assert (Hev2 : evolves (λ k, k ∈ jobs.*1) w1 (forEachJob jobs n1 w1).1).
  { apply preserves_forEachJob. intros h' Hh'. by apply list_elem_of_fmap_2. }
  rewrite Hrun in Hev2. cbn [fst] in Hev2.
  apply elem_of_cons in Hh as [->|Hh].
  - destruct (migrateJob_settles i j n w w1 n1) as (job' & Hl & Hset);
      [apply (Hrec (i, j)); by left|done|].
    exists job'. cbn [fst]. split.
    + by rewrite (ev_frame _ _ _ Hev2 i Hi).
    + by eapply settledJob_evolves.
  - eapply (IH n1 w1); [done| |done..].
    intros h' Hh'. rewrite (ev_frame _ _ _ Hev1).
    + apply Hrec. by right.
    + intros Heq. apply Hi. cbn [fst]. rewrite <-Heq.
      by apply list_elem_of_fmap_2.
Qed.

(** After a pass that resolved, every record on the queue is settled. *)
Lemma pass_settles w w' :
  migrateScheduledJobs w = (w', Ok ()) →
  ∀ i j, scheduledJobs w' !! i = Some (Some j) → settledJob w' j.
Proof.
  rewrite migrateScheduledJobs_eq. destruct (lockFree w); [|done].
  destruct (forEachJob _ 0 _) as [w1 [n|e]] eqn:Hrun; [|done].
  intros [= <-] i j Hl. change (scheduledJobs w1 !! i = Some (Some j)) in Hl.
  apply (settledJob_stable w1); [done..|].
  destruct (jobDataSchemaVersionIsNotLatest (scheduledJobs w !! i ≫= id))
    eqn:Hsel.
  - destruct (scheduledJobs w !! i) as [[j0|]|] eqn:Hl0; [|done..].
    destruct (forEachJob_settles _ _ _ _ _ (NoDup_jobsToMigrate _)
                (λ h Hh, proj1 (proj1 (elem_of_jobsToMigrate _ h) Hh))
                Hrun (i, j0))
      as (job' & Hl' & Hset).
    + apply elem_of_jobsToMigrate. by split.
    + cbn [fst] in Hl'. by simplify_eq.
  - assert (Hev : evolves
                    (λ k, ∃ h, h ∈ jobsToMigrate (scheduledJobs w) ∧ h.1 = k)
                    (passStart w)
                    (forEachJob (jobsToMigrate (scheduledJobs w)) 0
                                (passStart w)).1).
    { apply preserves_forEachJob. by eauto. }
    rewrite Hrun in Hev. cbn [fst] in Hev.
    rewrite (ev_frame _ _ _ Hev) in Hl.
    + change (scheduledJobs w !! i = Some (Some j)) in Hl.
      rewrite Hl in Hsel. by apply unselected_settled.
    + intros (h & [Hh1 Hh2]%elem_of_jobsToMigrate & <-).
      rewrite Hh1 in Hsel. cbn [mbind option_bind id] in Hsel. congruence.
Qed.

(** The same for a pass: a selected job was handed to the loop body. *)
Lemma pass_at w w' i (j : Job) :
  migrateScheduledJobs w = (w', Ok ()) →
  scheduledJobs w !! i = Some (Some j) →
  jobDataSchemaVersionIsNotLatest (Some j) = true →
  ∃ na wa nb wb,
    migrateJob (i, j) na wa = (wb, Ok nb)
    ∧ scheduledJobs wa !! i = Some (Some j)
    ∧ dbOnline wa = dbOnline w
    ∧ flowKeys (flowTable wa) = flowKeys (flowTable w)
    ∧ scheduledJobs w' !! i = scheduledJobs wb !! i.
Proof.
  rewrite migrateScheduledJobs_eq. destruct (lockFree w); [|done].
  destruct (forEachJob _ 0 _) as [w1 [n|e]] eqn:Hrun; [|done].
  intros [= <-] Hl Hsel.
  destruct (forEachJob_at _ _ _ _ _ (i, j) (NoDup_jobsToMigrate _)
              (proj2 (elem_of_jobsToMigrate _ (i, j)) (conj Hl Hsel)) Hrun)
    as (na & wa & nb & wb & Hat & Hev1 & Hev2).
  exists na, wa, nb, wb. split; [done|]. cbn [fst] in Hev1, Hev2.
  split; [by rewrite (ev_frame _ _ _ Hev1) by (intros Hk; by apply Hk)|].
  split; [apply Hev1|]. split; [apply Hev1|].
  change (scheduledJobs w1 !! i = scheduledJobs wb !! i).
  apply (ev_frame _ _ _ Hev2). intros Hk. by apply Hk.
Qed.

End Pass.

(** ** What a pass can reject with *)

Section Rejections.

Implicit Types (w : World) (st : LoopState) (e : error).

Lemma migrateV1ToV2_rejects st w w' e :
  migrateV1ToV2 st w = (w', Err e) → e = TypeError.
Proof.
  destruct st as [[job d] n]. destruct (isV1 d) eqn:Hv1.
  - destruct (isNil (d !! "flowVersion")) eqn:Hfv.
    + rewrite migrateV1ToV2_throw by done. by intros [= _ <-].
    + by rewrite migrateV1ToV2_run.
  - by rewrite migrateV1ToV2_skip.
Qed.

Lemma updateCron_rejects (j : Job) w w' e :
  updateCronExpressionOfRedisToPostgresTable j w = (w', Err e) →
  e = TypeError ∨ e = PersistenceError.
Proof.
  destruct (repeat j ≫= tz) as [t|] eqn:Ht;
    [destruct (repeat j ≫= pattern) as [p|] eqn:Hp|].
  - destruct (data j) as [d|] eqn:Hd.
    + rewrite (updateCron_repeatable j w t p d) by done.
      destruct (dbOnline w); [|intros [= _ <-]; by right].
      by destruct (List.find _ _).
    + unfold updateCronExpressionOfRedisToPostgresTable.
      rewrite Ht, Hp, Hd. intros [= _ <-]. by left.
  - rewrite updateCron_unrepeatable; [done|by right].
  - rewrite updateCron_unrepeatable; [done|by left].
Qed.

Lemma migrateV2ToV3_rejects st w w' e :
  migrateV2ToV3 st w = (w', Err e) → e = TypeError ∨ e = PersistenceError.
Proof.
  destruct st as [[job d] n].
  destruct (strictEqNum (schemaVersion d) 2) eqn:Hv2.
  - rewrite migrateV2ToV3_run by done.
    destruct (updateCronExpressionOfRedisToPostgresTable job.2 w)
      as [w1 [[]|e1]] eqn:Hcron; [done..|].
    intros [= _ <-]. by eapply updateCron_rejects.
  - by rewrite migrateV2ToV3_skip.
Qed.

Lemma migrateV3ToV4_resolves st w : ∃ w' st', migrateV3ToV4 st w = (w', Ok st').
Proof.
  destruct st as [[job d] n].
  destruct (strictEqNum (schemaVersion d) 3) eqn:Hv3.
  - rewrite migrateV3ToV4_run by done. eauto.
  - rewrite migrateV3ToV4_skip by done. eauto.
Qed.

Lemma migrateJob_rejects (h : JobHandle) n w w' e :
  migrateJob h n w = (w', Err e) → e = TypeError ∨ e = PersistenceError.
Proof.
  destruct h as [i j]. destruct (data j) as [d|] eqn:Hd.
  - rewrite (migrateJob_eq i j d) by done.
    destruct (migrateV1ToV2 (i, j, d, n) w) as [w1 [st1|e1]] eqn:H1.
    + destruct (migrateV2ToV3 st1 w1) as [w2 [st2|e2]] eqn:H2.
      * destruct (migrateV3ToV4_resolves st2 w2) as (w3 & st3 & ->). done.
      * intros [= _ <-]. by eapply migrateV2ToV3_rejects.
    + intros [= _ <-]. left. by eapply migrateV1ToV2_rejects.
  - unfold migrateJob. cbn [snd]. rewrite Hd. intros [= _ <-]. by left.
Qed.

Lemma forEachJob_rejects (jobs : list JobHandle) n w w' e :
  forEachJob jobs n w = (w', Err e) → e = TypeError ∨ e = PersistenceError.
Proof.
  revert n w. induction jobs as [|h jobs IH]; intros n w; [done|].
  rewrite forEachJob_cons.
  destruct (migrateJob h n w) as [w1 [n1|e1]] eqn:Hjob; [apply IH|].
  intros [= _ <-]. by eapply migrateJob_rejects.
Qed.

Lemma migrateScheduledJobs_rejects w w' e :
  migrateScheduledJobs w = (w', Err e) →
  e = LockAcquisitionError ∨ e = TypeError ∨ e = PersistenceError.
Proof.
  rewrite migrateScheduledJobs_eq.
  destruct (lockFree w); [|intros [= _ <-]; by left].
  destruct (forEachJob _ 0 _) as [w1 [n|e1]] eqn:Hrun; [done|].
  intros [= _ <-]. right. by eapply forEachJob_rejects.
Qed.

End Rejections.

(** ** Looking up and removing a repeating job *)

Section Removal.

Implicit Types (w : World) (id : string).

Lemma findRepeatableJobKey_hit id w k :
  redis w !! repeatingJobKey id = Some k →
  findRepeatableJobKey id w = (w, Ok (Some k)).
Proof.
  intros Hk. unfold findRepeatableJobKey, mbind, M_bind, clientGet.
  by rewrite Hk.
Qed.

Lemma findRepeatableJobKey_miss id w :
  redis w !! repeatingJobKey id = None →
  findRepeatableJobKey id w
  = (afterMiss id w, Ok (scanForJobKey id (scheduledJobs w))).
Proof.
  intros Hk. unfold findRepeatableJobKey, mbind, M_bind, clientGet.
  by rewrite Hk.
Qed.

(** The lookup never rejects, and leaves everything but the log as it is. *)
Lemma findRepeatableJobKey_frame id w :
  ∃ evs key, findRepeatableJobKey id w = (withLog (log w ++ evs) w, Ok key).
Proof.
  destruct (redis w !! repeatingJobKey id) as [k|] eqn:Hk.
  - exists [], (Some k). rewrite withLog_nil.
    by apply findRepeatableJobKey_hit.
  - exists [WarnJobKeyNotFound id], (scanForJobKey id (scheduledJobs w)).
    by apply findRepeatableJobKey_miss.
Qed.

(** The scan returns the key of the first record whose payload names
    [id]. *)
Lemma scanForJobKey_first id (pre post : list MaybeJob) (f : Job) :
  noMatch id pre → payloadMatches id f = true →
  scanForJobKey id (pre ++ Some f :: post) = repeatJobKey f.
Proof.
  intros Hpre Hf. unfold scanForJobKey.
  induction Hpre as [|mj pre Hmj _ IH]; simpl.
  - assert (Hd : isNilOpt (data f) = false).
    { unfold payloadMatches in Hf. by destruct (data f). }
    rewrite Hd. simpl. by rewrite Hf.
  - destruct mj as [g|]; [|exact IH].
    destruct (isNilOpt (data g)); [exact IH|].
    simpl. by rewrite (Hmj g eq_refl).
Qed.

Lemma scanForJobKey_none id (jobs : list MaybeJob) :
  noMatch id jobs → scanForJobKey id jobs = None.
Proof.
  intros Hall. unfold scanForJobKey.
  induction Hall as [|mj jobs Hmj _ IH]; [done|]. simpl.
  destruct mj as [g|]; [|exact IH].
  destruct (isNilOpt (data g)); [exact IH|].
  simpl. by rewrite (Hmj g eq_refl).
Qed.

Lemma removeRepeatingJob_eq id w :
  removeRepeatingJob id w
  = match findRepeatableJobKey id w with
    | (w1, Ok None) =>
        (withLog (log w1 ++ [HandledCouldNotFindJobKey id]) w1, Ok ())
    | (w1, Ok (Some k)) =>
        if bool_decide (k ∈ repeatKeys w1)
        then (forgotten id (unscheduled k w1), Ok ())
        else (forgotten id w1, Err (jobRemovalFailure id))
    | (w1, Err e) => (w1, Err e)
    end.
Proof.
  unfold removeRepeatingJob, mbind, M_bind.
  destruct (findRepeatableJobKey id w) as [w1 [[k|]|e]]; [|done..].
  unfold removeRepeatableByKey. by case_bool_decide.
Qed.

End Removal.

(** ** Jobs of the first generation *)

Section FirstGeneration.

Implicit Types (w : World) (d : obj) (j : Job).

Lemma isV1_true d :
  isV1 d = true ↔ schemaVersion d = None ∨ schemaVersion d = Some (VNum 1).
Proof.
  unfold isV1. rewrite orb_true_iff, strictEqNum_true.
  split; (intros [Hv|Hv]; [left|by right]).
  - by destruct (schemaVersion d).
  - by rewrite Hv.
Qed.

Lemma isV1_selected j d :
  data j = Some d → isV1 d = true →
  jobDataSchemaVersionIsNotLatest (Some j) = true.
Proof.
  intros Hd [Hv|Hv]%isV1_true; simpl; by rewrite Hd, Hv.
Qed.

(** When a flow has the job's version published, the backfill does not
    decline. *)
Lemma published_not_declined w0 w j d t p (f : Flow) s :
  data j = Some d →
  repeat j ≫= tz = Some t → repeat j ≫= pattern = Some p →
  f ∈ flowTable w0 → publishedVersionId f = Some s →
  d !! "flowVersionId" = Some (VStr s) →
  flowKeys (flowTable w) = flowKeys (flowTable w0) →
  ¬ declines w j.
Proof.
  intros Hd Ht Hp Hf Hs Hid Hkeys. unfold declines.
  rewrite (updateCron_repeatable j w t p d) by done.
  destruct (dbOnline w); [|done].
  pose proof (find_publishedAs_flowKeys (d !! "flowVersionId") _ _ Hkeys)
    as Hfind.
  destruct (List.find _ (flowTable w)) eqn:Hw; [done|].
  destruct (List.find _ (flowTable w0)) eqn:Hw0; [done|].
  apply list_elem_of_In in Hf.
  pose proof (find_none _ _ Hw0 f Hf) as Hno.
  unfold publishedAs in Hno. rewrite Hs, Hid in Hno. simpl in Hno.
  by rewrite bool_decide_eq_false in Hno.
Qed.

(** What a pass that resolved has done to a job of the first generation:
    it is at version 2 with the normalised payload, or at version 4 with
    that payload taken through the other two blocks. *)
Lemma pass_v1_outcome w w' i j d :
  migrateScheduledJobs w = (w', Ok ()) →
  scheduledJobs w !! i = Some (Some j) → data j = Some d →
  isV1 d = true →
  let job2 := withData (v2Of d) j in
  (scheduledJobs w' !! i = Some (Some job2)
   ∧ ∃ wa, flowKeys (flowTable wa) = flowKeys (flowTable w)
           ∧ declines wa job2)
  ∨ scheduledJobs w' !! i = Some (Some (withData (v4Of d) j)).
Proof.
  intros Hpass Hl Hd Hv1.
  destruct (pass_at w w' i j Hpass Hl (isV1_selected j d Hd Hv1))
    as (na & wa & nb & wb & Hat & Hla & _ & Hkeys & Hlb).
  destruct (migrateJob_v1_outcome i j d na wa wb nb) as [_ Hout];
    [by eapply lookup_lt_Some|done..|].
  cbv zeta. rewrite Hlb.
  destruct Hout as [(Hdecl & _ & Hl2)|(_ & _ & Hl4)]; [left|by right].
  split; [done|]. eexists. split; [|exact Hdecl]. done.
Qed.

End FirstGeneration.

(** * The claims *)

(** C5. The third block always takes a payload at version 3 to version 4:
    [jobType] becomes [EXECUTE_TRIGGER] when [executionType] was [BEGIN] and
    [DELAYED_FLOW] when it was [RESUME], [executionType] is cleared, the
    payload is written back and the job is counted. The loop body as a
    whole does just that on a job at version 3. *)
Theorem v3_to_v4_always_advances (job : JobHandle) (d : obj) (n : nat)
    (w : World) :
  schemaVersion d = Some (VNum 3) →
  ∃ d4,
    migrateV3ToV4 (job, d, n) w
    = (stored job.1 (withData d4 job.2) w,
       Ok ((job.1, withData d4 job.2), d4, S n))
    ∧ schemaVersion d4 = Some (VNum 4)
    ∧ (d !! "executionType" = Some (VStr ExecutionType.BEGIN) →
       d4 !! "jobType" = Some (VStr RepeatableJobType.EXECUTE_TRIGGER))
    ∧ (d !! "executionType" = Some (VStr ExecutionType.RESUME) →
       d4 !! "jobType" = Some (VStr RepeatableJobType.DELAYED_FLOW))
    ∧ d4 !! "executionType" = None
    ∧ (data job.2 = Some d →
       migrateJob job n w = (stored job.1 (withData d4 job.2) w, Ok (S n))).
Proof.
  intros Hv. exists (renameExecutionType d).
  assert (Hv3 : strictEqNum (schemaVersion d) 3 = true) by by rewrite Hv.
  split; [by apply migrateV3ToV4_run|].
  split; [apply renameExecutionType_schemaVersion|].
  rewrite renameExecutionType_jobType.
  split; [by intros ->|]. split; [by intros ->|].
  split; [apply renameExecutionType_executionType|].
  intros Hd. destruct job as [i j]. rewrite (migrateJob_eq i j d) by done.
  rewrite migrateV1ToV2_skip by by eapply isV1_schemaVersion.
  rewrite migrateV2ToV3_skip by by rewrite Hv.
  by rewrite migrateV3ToV4_run.
Qed.

Lemma v3_to_v4_always_advances_witness :
  ∃ d4,
    migrateV3ToV4 ((2%nat, v3Job), v3Payload, 0%nat) mixedWorld
    = (stored 2 (withData d4 v3Job) mixedWorld,
       Ok ((2%nat, withData d4 v3Job), d4, 1%nat))
    ∧ schemaVersion d4 = Some (VNum 4)
    ∧ d4 !! "jobType" = Some (VStr RepeatableJobType.DELAYED_FLOW)
    ∧ d4 !! "executionType" = None.
Proof.
  destruct (v3_to_v4_always_advances (2%nat, v3Job) v3Payload 0 mixedWorld)
    as (d4 & Hrun & Hv & _ & Hresume & Hcleared & _); [reflexivity|].
  exists d4. split; [exact Hrun|]. split; [exact Hv|].
  split; [apply Hresume; reflexivity|exact Hcleared].
Defined.

(** C1, as the code has it. A job of the first generation (no
    [schemaVersion], or 1) whose repeat options carry a time zone and a
    pattern, and whose inline flow version is the published version of
    some flow, is at version 4 after a pass that resolved; its [jobType] is
    [EXECUTE_TRIGGER], whatever the payload held, and [executionType] is
    cleared. *)
Theorem v1_job_reaches_v4_when_backfilled (w w' : World) (i : nat) (j : Job)
    (d : obj) (t p s : string) (f : Flow) :
  init w = (w', Ok ()) →
  scheduledJobs w !! i = Some (Some j) → data j = Some d →
  schemaVersion d = None ∨ schemaVersion d = Some (VNum 1) →
  repeat j ≫= tz = Some t → repeat j ≫= pattern = Some p →
  f ∈ flowTable w → publishedVersionId f = Some s →
  d !! "flowVersion" ≫= getProp "id" = Some (VStr s) →
  ∃ j' d',
    scheduledJobs w' !! i = Some (Some j') ∧ data j' = Some d'
    ∧ schemaVersion d' = Some (VNum 4)
    ∧ d' !! "jobType" = Some (VStr RepeatableJobType.EXECUTE_TRIGGER)
    ∧ d' !! "executionType" = None.
Proof.
  intros Hpass Hl Hd Hv1%isV1_true Ht Hp Hf Hs Hid.
  destruct (pass_v1_outcome w w' i j d Hpass Hl Hd Hv1)
    as [(_ & wa & Hkeys & Hdecl)|Hl4].
  - exfalso. revert Hdecl.
    eapply (published_not_declined w wa _ (v2Of d) t p f s); try done.
    unfold v2Of. by rewrite normalizedJobData_flowVersionId.
  - exists (withData (v4Of d) j), (v4Of d). split; [exact Hl4|].
    split; [done|]. split; [apply v4Of_schemaVersion|].
    split; [apply v4Of_jobType|apply v4Of_executionType].
Qed.

Lemma v1_job_reaches_v4_when_backfilled_witness :
  ∃ j' d',
    scheduledJobs (init resumeWorld).1 !! 0%nat = Some (Some j')
    ∧ data j' = Some d'
    ∧ schemaVersion d' = Some (VNum 4)
    ∧ d' !! "jobType" = Some (VStr RepeatableJobType.EXECUTE_TRIGGER)
    ∧ d' !! "executionType" = None.
Proof.
  apply (v1_job_reaches_v4_when_backfilled
           resumeWorld (init resumeWorld).1 0 v1JobResume v1PayloadResume
           "UTC" "* * * * *" "fv1" flow1).
  - vm_compute. reflexivity.
  - reflexivity.
  - reflexivity.
  - right. reflexivity.
  - reflexivity.
  - reflexivity.
  - apply list_elem_of_here.
  - reflexivity.
  - reflexivity.
Defined.

(** C1, as the spec has it, fails: a job of the first generation for which
    no flow has its version published is left at version 2 by a pass that
    resolved. *)
Lemma v1_job_left_at_v2 :
  ∃ w' j' d',
    init orphanWorld = (w', Ok ())
    ∧ scheduledJobs orphanWorld !! 0%nat = Some (Some v1Job)
    ∧ schemaVersion v1Payload = None
    ∧ scheduledJobs w' !! 0%nat = Some (Some j')
    ∧ data j' = Some d'
    ∧ schemaVersion d' = Some (VNum 2)
    ∧ d' !! "jobType" = None.
Proof.
  eexists _, _, _. split; [vm_compute; reflexivity|].
  split; [reflexivity|]. split; [reflexivity|].
  split; [reflexivity|]. split; [reflexivity|].
  split; vm_compute; reflexivity.
Qed.

(** C10. For every payload whose [schemaVersion] is undefined or 1 the
    first block, whenever it completes, has set [executionType] to [BEGIN]
    and [environment] to [PRODUCTION] and the version to 2, whatever the
    payload held; it completes unless [flowVersion] is nil, in which case
    it throws. A job with such a payload that a pass has taken to version 4
    has [jobType] [EXECUTE_TRIGGER], not [DELAYED_FLOW]. *)
Theorem v1_to_v2_sets_begin_unconditionally (d : obj) :
  schemaVersion d = None ∨ schemaVersion d = Some (VNum 1) →
  (∀ (job : JobHandle) (n : nat) (w : World),
     if isNil (d !! "flowVersion")
     then migrateV1ToV2 (job, d, n) w = (w, Err TypeError)
     else ∃ d2,
       migrateV1ToV2 (job, d, n) w
       = (stored job.1 (withData d2 job.2) w,
          Ok ((job.1, withData d2 job.2), d2, S n))
       ∧ d2 !! "executionType" = Some (VStr ExecutionType.BEGIN)
       ∧ d2 !! "environment" = Some (VStr RunEnvironment.PRODUCTION)
       ∧ schemaVersion d2 = Some (VNum 2))
  ∧ (∀ (w w' : World) (i : nat) (j j' : Job) (d' : obj),
       init w = (w', Ok ()) →
       scheduledJobs w !! i = Some (Some j) → data j = Some d →
       scheduledJobs w' !! i = Some (Some j') → data j' = Some d' →
       schemaVersion d' = Some (VNum 4) →
       d' !! "jobType" = Some (VStr RepeatableJobType.EXECUTE_TRIGGER)
       ∧ d' !! "jobType" ≠ Some (VStr RepeatableJobType.DELAYED_FLOW)).
Proof.
  intros Hv1%isV1_true. split.
  - intros job n w. destruct (isNil (d !! "flowVersion")) eqn:Hfv.
    + by apply migrateV1ToV2_throw.
    + exists (v2Of d). split; [by apply migrateV1ToV2_run|]. unfold v2Of.
      split; [apply normalizedJobData_executionType|].
      split; [apply normalizedJobData_environment|].
      apply normalizedJobData_schemaVersion.
  - intros w w' i j j' d' Hpass Hl Hd Hl' Hd' Hv4.
    destruct (pass_v1_outcome w w' i j d Hpass Hl Hd Hv1)
      as [(Hl2 & _)|Hl4].
    + rewrite Hl2 in Hl'. injection Hl' as <-. injection Hd' as <-.
      unfold v2Of in Hv4.
      by rewrite normalizedJobData_schemaVersion in Hv4.
    + rewrite Hl4 in Hl'. injection Hl' as <-.
      assert (d' = v4Of d) as -> by (cbn [data withData] in Hd'; congruence).
      by rewrite v4Of_jobType.
Qed.

Lemma v1_to_v2_sets_begin_unconditionally_witness :
  (∃ d2,
     migrateV1ToV2 ((0%nat, v1JobResume), v1PayloadResume, 0%nat) resumeWorld
     = (stored 0 (withData d2 v1JobResume) resumeWorld,
        Ok ((0%nat, withData d2 v1JobResume), d2, 1%nat))
     ∧ d2 !! "executionType" = Some (VStr ExecutionType.BEGIN)
     ∧ d2 !! "environment" = Some (VStr RunEnvironment.PRODUCTION)
     ∧ schemaVersion d2 = Some (VNum 2))
  ∧ scheduledJobs (init resumeWorld).1 !! 0%nat
    = Some (Some (withData (v4Of v1PayloadResume) v1JobResume))
  ∧ v4Of v1PayloadResume !! "jobType"
    = Some (VStr RepeatableJobType.EXECUTE_TRIGGER)
  ∧ v4Of v1PayloadResume !! "jobType"
    ≠ Some (VStr RepeatableJobType.DELAYED_FLOW).
Proof.
  destruct (v1_to_v2_sets_begin_unconditionally v1PayloadResume)
    as [Hblock Hpass]; [right; reflexivity|].
  split; [exact (Hblock (0%nat, v1JobResume) 0%nat resumeWorld)|].
  assert (Hl : scheduledJobs (init resumeWorld).1 !! 0%nat
               = Some (Some (withData (v4Of v1PayloadResume) v1JobResume)))
    by (vm_compute; reflexivity).
  split; [exact Hl|].
  apply (Hpass resumeWorld (init resumeWorld).1 0%nat v1JobResume
               (withData (v4Of v1PayloadResume) v1JobResume)
               (v4Of v1PayloadResume)).
  - vm_compute. reflexivity.
  - reflexivity.
  - reflexivity.
  - exact Hl.
  - reflexivity.
  - vm_compute. reflexivity.
Defined.




(** C3, as the code has it. When the lock cannot be had, the pass is
    skipped, nothing is read, written or logged, and [init()] rejects with
    the error of the lock service. *)
Theorem init_rejects_when_lock_is_not_acquired (w : World) :
  lockFree w = false → init w = (w, Err LockAcquisitionError).
Proof.
  intros Hlock. unfold init. by rewrite migrateScheduledJobs_eq, Hlock.
Qed.

Lemma init_rejects_when_lock_is_not_acquired_witness :
  init lockedWorld = (lockedWorld, Err LockAcquisitionError).
Proof.
  apply (init_rejects_when_lock_is_not_acquired lockedWorld). reflexivity.
Defined.

(** C3, as the spec has it, fails: with the lock taken elsewhere [init()]
    does not complete, though the queue is left as it was. *)
Lemma init_fails_without_the_lock :
  ∃ w' e,
    init lockedWorld = (w', Err e)
    ∧ init lockedWorld ≠ (w', Ok ())
    ∧ scheduledJobs w' = scheduledJobs lockedWorld.
Proof.
  exists lockedWorld, LockAcquisitionError.
  split; [vm_compute; reflexivity|]. split; [|reflexivity].
  vm_compute. intros [=].
Qed.

(** C7. After an [init()] that resolved, a second [init()] on the world the
    first one left resolves as well, runs its pass (the opening lines are
    logged again), reports a count of zero, and leaves the broker records
    and the flow table as they were. *)
Theorem second_init_migrates_nothing (w w1 : World) :
  init w = (w1, Ok ()) →
  ∃ w2 evs,
    init w1 = (w2, Ok ())
    ∧ log w2
      = log w1
        ++ [InfoStartingMigration;
            InfoFoundTotalJobs (length (scheduledJobs w1))]
        ++ evs ++ [InfoMigratedJobs 0]
    ∧ scheduledJobs w2 = scheduledJobs w1
    ∧ flowTable w2 = flowTable w1.
Proof.
  intros Hfirst. unfold init in *.
  pose proof (pass_settles w w1 Hfirst) as Hset.
  assert (Hfree : lockFree w1 = true).
  { revert Hfirst. rewrite migrateScheduledJobs_eq.
    destruct (lockFree w) eqn:Hw; [|done].
    assert (Hev : evolves
              (λ k, ∃ h, h ∈ jobsToMigrate (scheduledJobs w) ∧ h.1 = k)
              (passStart w)
              (forEachJob (jobsToMigrate (scheduledJobs w)) 0
                          (passStart w)).1).
    { apply preserves_forEachJob. by eauto. }
    destruct (forEachJob _ 0 _) as [wl [n|e]]; [|done].
    intros [= <-]. cbn [fst] in Hev.
    change (lockFree wl = true). by rewrite (ev_lockFree _ _ _ Hev). }
  rewrite migrateScheduledJobs_eq, Hfree.
  destruct (forEachJob_settled (jobsToMigrate (scheduledJobs w1)) 0
              (passStart w1)) as [evs ->].
  { intros [i j] [Hl Hsel]%elem_of_jobsToMigrate. cbn [fst snd] in *.
    split; [by apply selected_has_payload|].
    apply (settledJob_stable w1); [done..|]. by eapply Hset. }
  eexists _, evs. split; [done|]. split; [|done]. simpl.
  by rewrite <-!app_assoc.
Qed.

Lemma second_init_migrates_nothing_witness :
  ∃ w2 evs,
    init (init mixedWorld).1 = (w2, Ok ())
    ∧ log w2
      = log (init mixedWorld).1
        ++ [InfoStartingMigration;
            InfoFoundTotalJobs (length (scheduledJobs (init mixedWorld).1))]
        ++ evs ++ [InfoMigratedJobs 0]
    ∧ scheduledJobs w2 = scheduledJobs (init mixedWorld).1
    ∧ flowTable w2 = flowTable (init mixedWorld).1.
Proof.
  apply (second_init_migrates_nothing mixedWorld (init mixedWorld).1).
  vm_compute. reflexivity.
Defined.

(** C8 on one job. The queue holds a single job, of the first generation;
    the pass takes it to version 4 and reports a count of three, one for
    each block the job went through. *)
Theorem count_is_of_blocks_not_of_jobs :
  length (scheduledJobs happyWorld) = 1%nat
  ∧ jobsToMigrate (scheduledJobs happyWorld) = [(0%nat, v1Job)]
  ∧ ∃ w',
      init happyWorld = (w', Ok ())
      ∧ scheduledJobs w' = [Some (withData (v4Of v1Payload) v1Job)]
      ∧ log w' = [InfoStartingMigration; InfoFoundTotalJobs 1;
                  InfoMigratedJobs 3].
Proof.
  split; [reflexivity|]. split; [vm_compute; reflexivity|].
  eexists. split; [vm_compute; reflexivity|].
  split; vm_compute; reflexivity.
Qed.

(** C4. When neither the side mapping nor the scan yields a key for [id],
    [removeRepeatingJob] hands the anomaly to the exception handler and
    resolves, leaving mapping, schedules and records alone. When a key is
    found and the broker answers that it names no active schedule, the
    call rejects with [JOB_REMOVAL_FAILURE] carrying [jobId: id]. That is
    the only rejection of the call, no error of another code or kind
    equals it, and [init()] never rejects with that code. *)
Theorem removeRepeatingJob_not_found_and_failure (id : string) (w : World) :
  (redis w !! repeatingJobKey id = None →
   scanForJobKey id (scheduledJobs w) = None →
   ∃ w',
     removeRepeatingJob id w = (w', Ok ())
     ∧ log w' = log w ++ [WarnJobKeyNotFound id; HandledCouldNotFindJobKey id]
     ∧ redis w' = redis w ∧ repeatKeys w' = repeatKeys w
     ∧ scheduledJobs w' = scheduledJobs w)
  ∧ (∀ (w1 : World) (k : string),
       findRepeatableJobKey id w = (w1, Ok (Some k)) → k ∉ repeatKeys w →
       ∃ w',
         removeRepeatingJob id w = (w', Err (jobRemovalFailure id))
         ∧ errorCode (jobRemovalFailure id)
           = Some ErrorCode.JOB_REMOVAL_FAILURE
         ∧ jobRemovalFailure id
           = ActivepiecesError ErrorCode.JOB_REMOVAL_FAILURE
                               {[ "jobId" := id ]})
  ∧ (∀ (w' : World) (e : error),
       removeRepeatingJob id w = (w', Err e) → e = jobRemovalFailure id)
  ∧ (∀ e : error,
       errorCode e ≠ Some ErrorCode.JOB_REMOVAL_FAILURE →
       e ≠ jobRemovalFailure id)
  ∧ (∀ (w0 w' : World) (e : error),
       init w0 = (w', Err e) →
       errorCode e ≠ Some ErrorCode.JOB_REMOVAL_FAILURE).
Proof.
  split; [|split; [|split; [|split]]].
  - intros Hmiss Hscan. rewrite removeRepeatingJob_eq.
    rewrite findRepeatableJobKey_miss by done. rewrite Hscan.
    eexists. split; [done|]. simpl. by rewrite <-app_assoc.
  - intros w1 k Hfind Hk. rewrite removeRepeatingJob_eq, Hfind.
    destruct (findRepeatableJobKey_frame id w) as (evs & key & Hframe).
    rewrite Hframe in Hfind. injection Hfind as <- _.
    rewrite bool_decide_eq_false_2 by done. by eexists.
  - intros w' e. rewrite removeRepeatingJob_eq.
    destruct (findRepeatableJobKey_frame id w) as (evs & key & ->).
    destruct key as [k|]; [|done].
    case_bool_decide; [done|]. by intros [= _ <-].
  - intros e He ->. by apply He.
  - intros w0 w' e [->|[->| ->]]%migrateScheduledJobs_rejects; done.
Qed.

Lemma removeRepeatingJob_not_found_and_failure_witness :
  (∃ w',
     removeRepeatingJob "fv1" emptyWorld = (w', Ok ())
     ∧ log w' = log emptyWorld
                ++ [WarnJobKeyNotFound "fv1"; HandledCouldNotFindJobKey "fv1"]
     ∧ redis w' = redis emptyWorld ∧ repeatKeys w' = repeatKeys emptyWorld
     ∧ scheduledJobs w' = scheduledJobs emptyWorld)
  ∧ (∃ w',
       removeRepeatingJob "fv1" staleWorld = (w', Err (jobRemovalFailure "fv1"))
       ∧ errorCode (jobRemovalFailure "fv1")
         = Some ErrorCode.JOB_REMOVAL_FAILURE
       ∧ jobRemovalFailure "fv1"
         = ActivepiecesError ErrorCode.JOB_REMOVAL_FAILURE
                             {[ "jobId" := "fv1" ]})
  ∧ TypeError ≠ jobRemovalFailure "fv1"
  ∧ errorCode LockAcquisitionError ≠ Some ErrorCode.JOB_REMOVAL_FAILURE.
Proof.
  destruct (removeRepeatingJob_not_found_and_failure "fv1" emptyWorld)
    as (Hnone & _ & _ & Hkind & Hinit).
  destruct (removeRepeatingJob_not_found_and_failure "fv1" staleWorld)
    as (_ & Hfail & _).
  split; [apply Hnone; reflexivity|].
  split.
  - apply (Hfail staleWorld "k0"); [vm_compute; reflexivity|].
    apply not_elem_of_empty.
  - split.
    + apply Hkind. discriminate.
    + apply (Hinit lockedWorld lockedWorld). vm_compute. reflexivity.
Defined.



(** C9. Whenever a key is found for [id], the side mapping entry for [id]
    is gone after [removeRepeatingJob], also when the call rejects: when
    the broker does not know the key, the call rejects with
    [JOB_REMOVAL_FAILURE], schedules and records are as before, and a second
    call misses the mapping and takes the scan. *)
Theorem removeRepeatingJob_forgets_mapping_on_failure (id : string)
    (w w1 : World) (k : string) :
  findRepeatableJobKey id w = (w1, Ok (Some k)) →
  let w' := (removeRepeatingJob id w).1 in
  redis w' !! repeatingJobKey id = None
  ∧ (k ∉ repeatKeys w →
     (removeRepeatingJob id w).2 = Err (jobRemovalFailure id)
     ∧ repeatKeys w' = repeatKeys w
     ∧ scheduledJobs w' = scheduledJobs w
     ∧ findRepeatableJobKey id w'
       = (afterMiss id w', Ok (scanForJobKey id (scheduledJobs w')))).
Proof.
  intros Hfind. cbv zeta. rewrite removeRepeatingJob_eq, Hfind.
  destruct (findRepeatableJobKey_frame id w) as (evs & key & Hframe).
  rewrite Hframe in Hfind. injection Hfind as <- _.
  split.
  - case_bool_decide; apply lookup_delete_eq.
  - intros Hk. rewrite bool_decide_eq_false_2 by done.
    split; [done|]. split; [done|]. split; [done|].
    apply findRepeatableJobKey_miss, lookup_delete_eq.
Qed.

Lemma removeRepeatingJob_forgets_mapping_on_failure_witness :
  let w' := (removeRepeatingJob "fv1" staleWorld).1 in
  redis staleWorld !! repeatingJobKey "fv1" = Some "k0"
  ∧ redis w' !! repeatingJobKey "fv1" = None
  ∧ (removeRepeatingJob "fv1" staleWorld).2 = Err (jobRemovalFailure "fv1")
  ∧ findRepeatableJobKey "fv1" w'
    = (afterMiss "fv1" w', Ok (scanForJobKey "fv1" (scheduledJobs w'))).
Proof.
  cbv zeta.
  destruct (removeRepeatingJob_forgets_mapping_on_failure
              "fv1" staleWorld staleWorld "k0") as [Hgone Hfail].
  { vm_compute. reflexivity. }
  destruct (Hfail (not_elem_of_empty (C := gset string) "k0"))
    as (Herr & _ & _ & Hretry).
  split; [vm_compute; reflexivity|]. split; [exact Hgone|].
  split; [exact Herr|exact Hretry].
Defined.

(** * Further properties *)

(** ** A pass rewrites payloads only *)

Section PayloadsOnly.

Implicit Types (w : World) (h : JobHandle) (st : LoopState).

Lemma sameShape_refl (mj : MaybeJob) : sameShape mj mj.
Proof. by destruct mj. Qed.

Lemma sameShape_trans (a b c : MaybeJob) :
  sameShape a b → sameShape b c → sameShape a c.
Proof.
  destruct a, b, c; simpl; try done.
  intros (? & ? & ?) (? & ? & ?). repeat split; congruence.
Qed.

Lemma payloadsOnly_refl w : payloadsOnly w w.
Proof.
  constructor; try done. apply Forall2_same_length_lookup_2; [done|].
  intros i x y Hx Hy. simplify_eq. apply sameShape_refl.
Qed.

Lemma payloadsOnly_trans w1 w2 w3 :
  payloadsOnly w1 w2 → payloadsOnly w2 w3 → payloadsOnly w1 w3.
Proof.
  intros [] []. constructor; try congruence.
  eapply Forall2_trans; [|done..]. apply sameShape_trans.
Qed.

Lemma payloadsOnly_same_records w w' :
  lockFree w' = lockFree w → redis w' = redis w →
  repeatKeys w' = repeatKeys w → dbOnline w' = dbOnline w →
  flowKeys (flowTable w') = flowKeys (flowTable w) →
  scheduledJobs w' = scheduledJobs w → payloadsOnly w w'.
Proof.
  intros ????? Hjobs. constructor; try done. rewrite Hjobs.
  apply (po_records _ _ (payloadsOnly_refl w)).
Qed.

Lemma evolves_payloadsOnly w w' :
  evolves (λ _, False) w w' → payloadsOnly w w'.
Proof.
  intros Hev. apply payloadsOnly_same_records; try apply Hev.
  apply list_eq. intros i. apply (ev_frame _ _ _ Hev). tauto.
Qed.

Lemma handleFits_payloadsOnly h w w' :
  payloadsOnly w w' → handleFits h w → handleFits h w'.
Proof.
  intros Hpo (j0 & Hl & Hshape).
  destruct (Forall2_lookup_l _ _ _ _ _ (po_records _ _ Hpo) Hl)
    as ([j1|] & Hl1 & H01); [|done].
  exists j1. split; [done|].
  simpl in *. destruct H01 as (? & ? & ?), Hshape as (? & ? & ?).
  repeat split; congruence.
Qed.

(** Writing a payload through a fitting job object changes payloads
    only. *)
Lemma stored_payloadsOnly i (j : Job) d w :
  handleFits (i, j) w → isNilOpt (data j) = false →
  payloadsOnly w (stored i (withData d j) w)
  ∧ handleFits (i, withData d j) (stored i (withData d j) w).
Proof.
  intros (j0 & Hl & Hshape) Hd. cbn [fst snd] in *. split.
  - constructor; try done. unfold stored. cbn [scheduledJobs withScheduledJobs].
    rewrite <-(list_insert_id _ _ _ Hl) at 1.
    apply Forall2_insert; [apply (po_records _ _ (payloadsOnly_refl w))|].
    simpl in *. destruct Hshape as (? & ? & ?). repeat split; congruence.
  - exists (withData d j). split; [|by apply sameShape_refl].
    cbn [fst]. apply lookup_stored_eq. by eapply lookup_lt_Some.
Qed.

Lemma migrateV1ToV2_payloadsOnly st w :
  fits st w →
  payloadsOnly w (migrateV1ToV2 st w).1
  ∧ ∀ st', (migrateV1ToV2 st w).2 = Ok st' → fits st' (migrateV1ToV2 st w).1.
Proof.
  destruct st as [[[i j] d] n]. intros [Hfit Hd]. cbn [fst snd] in *.
  destruct (isV1 d) eqn:Hv1.
  - destruct (isNil (d !! "flowVersion")) eqn:Hfv.
    + rewrite migrateV1ToV2_throw by done. split; [apply payloadsOnly_refl|done].
    + rewrite migrateV1ToV2_run by done. cbn [fst snd].
      destruct (stored_payloadsOnly i j (v2Of d) w Hfit) as [Hpo Hfit'];
        [by rewrite Hd|].
      split; [done|]. by intros st' [= <-].
  - rewrite migrateV1ToV2_skip by done. split; [apply payloadsOnly_refl|].
    by intros st' [= <-].
Qed.

Lemma migrateV2ToV3_payloadsOnly st w :
  fits st w →
  payloadsOnly w (migrateV2ToV3 st w).1
  ∧ ∀ st', (migrateV2ToV3 st w).2 = Ok st' → fits st' (migrateV2ToV3 st w).1.
Proof.
  destruct st as [[[i j] d] n]. intros [Hfit Hd]. cbn [fst snd] in *.
  destruct (strictEqNum (schemaVersion d) 2) eqn:Hv2.
  - rewrite migrateV2ToV3_run by done. cbn [fst snd].
    assert (Hev : evolves (λ _, False) w
              (updateCronExpressionOfRedisToPostgresTable j w).1)
      by apply preserves_updateCron.
    destruct (updateCronExpressionOfRedisToPostgresTable j w)
      as [w1 [[]|e]]; cbn [fst snd] in *;
      apply evolves_payloadsOnly in Hev.
    + pose proof (handleFits_payloadsOnly (i, j) w w1 Hev Hfit) as Hfit1.
      destruct (stored_payloadsOnly i j
                  (setProp "schemaVersion" (Some (VNum 3)) d) w1 Hfit1)
        as [Hpo Hfit']; [by rewrite Hd|].
      split; [by eapply payloadsOnly_trans|]. by intros st' [= <-].
    + split; [done|]. intros st' [= <-]. split; [|done].
      by eapply handleFits_payloadsOnly.
    + by split.
  - rewrite migrateV2ToV3_skip by done. split; [apply payloadsOnly_refl|].
    by intros st' [= <-].
Qed.

Lemma migrateV3ToV4_payloadsOnly st w :
  fits st w → payloadsOnly w (migrateV3ToV4 st w).1.
Proof.
  destruct st as [[[i j] d] n]. intros [Hfit Hd]. cbn [fst snd] in *.
  destruct (strictEqNum (schemaVersion d) 3) eqn:Hv3.
  - rewrite migrateV3ToV4_run by done. cbn [fst snd].
    apply stored_payloadsOnly; [done|by rewrite Hd].
  - rewrite migrateV3ToV4_skip by done. apply payloadsOnly_refl.
Qed.

Lemma migrateJob_payloadsOnly h n w :
  handleFits h w → payloadsOnly w (migrateJob h n w).1.
Proof.
  destruct h as [i j]. intros Hfit.
  destruct (data j) as [d|] eqn:Hd.
  - rewrite (migrateJob_eq i j d) by done.
    destruct (migrateV1ToV2_payloadsOnly (i, j, d, n) w) as [Hpo1 Hfit1];
      [by split|].
    destruct (migrateV1ToV2 (i, j, d, n) w) as [w1 [st1|e]];
      cbn [fst snd] in *; [|done].
    destruct (migrateV2ToV3_payloadsOnly st1 w1) as [Hpo2 Hfit2];
      [by apply Hfit1|].
    destruct (migrateV2ToV3 st1 w1) as [w2 [st2|e]];
      cbn [fst snd] in *; [|by eapply payloadsOnly_trans].
    pose proof (migrateV3ToV4_payloadsOnly st2 w2 (Hfit2 _ eq_refl)) as Hpo3.
    destruct (migrateV3ToV4 st2 w2) as [w3 [st3|e]]; cbn [fst snd] in *;
      eapply payloadsOnly_trans; [|exact Hpo3| |exact Hpo3];
      by eapply payloadsOnly_trans.
  - unfold migrateJob. cbn [snd]. rewrite Hd. apply payloadsOnly_refl.
Qed.

Lemma forEachJob_payloadsOnly (jobs : list JobHandle) n w :
  (∀ h, h ∈ jobs → handleFits h w) →
  payloadsOnly w (forEachJob jobs n w).1.
Proof.
  revert n w. induction jobs as [|h jobs IH]; intros n w Hfit.
  - apply payloadsOnly_refl.
  - rewrite forEachJob_cons.
    pose proof (migrateJob_payloadsOnly h n w (Hfit h (list_elem_of_here _ _)))
      as Hpo.
    destruct (migrateJob h n w) as [w1 [n1|e]]; cbn [fst] in *; [|done].
    eapply payloadsOnly_trans; [exact Hpo|]. apply IH.
    intros h' Hh'. eapply handleFits_payloadsOnly; [exact Hpo|].
    apply Hfit. by right.
Qed.

Lemma selected_handleFits (jobs : list MaybeJob) h w :
  scheduledJobs w = jobs → h ∈ jobsToMigrate jobs → handleFits h w.
Proof.
  intros <- [Hl _]%elem_of_jobsToMigrate. exists h.2. split; [done|].
  apply sameShape_refl.
Qed.

Lemma migrateScheduledJobs_payloadsOnly w :
  payloadsOnly w (migrateScheduledJobs w).1.
Proof.
  rewrite migrateScheduledJobs_eq. destruct (lockFree w); [|apply payloadsOnly_refl].
  pose proof (forEachJob_payloadsOnly (jobsToMigrate (scheduledJobs w)) 0
                (passStart w)
                (λ h Hh, selected_handleFits _ h (passStart w) eq_refl Hh))
    as Hpo.
  destruct (forEachJob _ 0 _) as [w1 [n|e]]; cbn [fst] in *;
    destruct Hpo; by constructor.
Qed.

End PayloadsOnly.

(** ** What a pass leaves alone, and what it counts *)

Section PassFacts.

Implicit Types (w : World) (h : JobHandle) (n : nat).

Lemma migrateJob_outOfReach i (j : Job) n w :
  outOfReach (Some j) = true → data j ≠ None →
  migrateJob (i, j) n w = (w, Ok n).
Proof.
  unfold outOfReach, noBlockApplies.
  destruct (data j) as [d|] eqn:Hd; [|done].
  intros [[Hv1%negb_true_iff Hv2%negb_true_iff]%andb_true_iff
            Hv3%negb_true_iff]%andb_true_iff _.
  rewrite (migrateJob_eq i j d) by done.
  rewrite migrateV1ToV2_skip by done. rewrite migrateV2ToV3_skip by done.
  by rewrite migrateV3ToV4_skip.
Qed.

(** The loop leaves the entry at [i] as it is when it has no block for
    the job objects of that position, whatever its outcome. *)
Lemma forEachJob_outOfReach (jobs : list JobHandle) i n w :
  (∀ h, h ∈ jobs → h.1 = i → outOfReach (Some h.2) = true) →
  scheduledJobs (forEachJob jobs n w).1 !! i = scheduledJobs w !! i.
Proof.
  revert n w. induction jobs as [|[k j] jobs IH]; intros n w Hout; [done|].
  rewrite forEachJob_cons.
  assert (Hrest : ∀ h, h ∈ jobs → h.1 = i → outOfReach (Some h.2) = true)
    by (intros h Hh; apply Hout; by right).
  destruct (decide (k = i)) as [->|Hk].
  - destruct (data j) as [d|] eqn:Hd.
    + rewrite migrateJob_outOfReach;
        [by apply IH|by apply (Hout (i, j)); [left|]|by rewrite Hd].
    + unfold migrateJob. cbn [snd]. by rewrite Hd.
  - destruct (preserves_migrateJob (λ k', k' = k) (k, j) n eq_refl w)
      as [Hev _].
    destruct (migrateJob (k, j) n w) as [w1 [n1|e]]; cbn [fst] in *.
    + rewrite IH by done. apply (ev_frame _ _ _ Hev). by intros ->.
    + apply (ev_frame _ _ _ Hev). by intros ->.
Qed.

Lemma selected_not_outOfReach_other (jobs : list MaybeJob) i mj h :
  jobs !! i = Some mj → outOfReach mj = true →
  h ∈ jobsToMigrate jobs → h.1 = i → outOfReach (Some h.2) = true.
Proof.
  intros Hl Hout [Hl' _]%elem_of_jobsToMigrate <-. congruence.
Qed.

Lemma migrateScheduledJobs_outOfReach w i (mj : MaybeJob) :
  scheduledJobs w !! i = Some mj → outOfReach mj = true →
  scheduledJobs (migrateScheduledJobs w).1 !! i = Some mj.
Proof.
  intros Hl Hout. rewrite migrateScheduledJobs_eq.
  destruct (lockFree w); [|done].
  pose proof (forEachJob_outOfReach (jobsToMigrate (scheduledJobs w)) i 0
                (passStart w)
                (λ h, selected_not_outOfReach_other _ i mj h Hl Hout))
    as Hkeep.
  destruct (forEachJob _ 0 _) as [w1 [n|e]]; cbn [fst] in *;
    change (scheduledJobs w1 !! i = Some mj); by rewrite Hkeep.
Qed.

Lemma migrateV1ToV2_counts (st st' : LoopState) w w' :
  migrateV1ToV2 st w = (w', Ok st') →
  (st'.2 = st.2 ∧ w' = w) ∨ st'.2 = S st.2.
Proof.
  destruct st as [[job d] n]. destruct (isV1 d) eqn:Hv1.
  - destruct (isNil (d !! "flowVersion")) eqn:Hfv.
    + by rewrite migrateV1ToV2_throw.
    + rewrite migrateV1ToV2_run by done. intros [= <- <-]. by right.
  - rewrite migrateV1ToV2_skip by done. intros [= <- <-]. by left.
Qed.

Lemma migrateV2ToV3_counts (st st' : LoopState) w w' :
  migrateV2ToV3 st w = (w', Ok st') →
  (st'.2 = st.2 ∧ ∃ evs, w' = withLog (log w ++ evs) w) ∨ st'.2 = S st.2.
Proof.
  destruct st as [[job d] n].
  destruct (strictEqNum (schemaVersion d) 2) eqn:Hv2.
  - rewrite migrateV2ToV3_run by done.
    destruct (updateCronExpressionOfRedisToPostgresTable job.2 w)
      as [w1 [[]|e]] eqn:Hcron; [| |done].
    + intros [= <- <-]. by right.
    + intros [= <- <-]. left. split; [done|].
      destruct (declines_inv w job.2) as [evs Hevs];
        [unfold declines; by rewrite Hcron|].
      exists evs. congruence.
  - rewrite migrateV2ToV3_skip by done. intros [= <- <-]. left.
    split; [done|]. exists []. by rewrite withLog_nil.
Qed.

Lemma migrateV3ToV4_counts (st st' : LoopState) w w' :
  migrateV3ToV4 st w = (w', Ok st') →
  (st'.2 = st.2 ∧ w' = w) ∨ st'.2 = S st.2.
Proof.
  destruct st as [[job d] n].
  destruct (strictEqNum (schemaVersion d) 3) eqn:Hv3.
  - rewrite migrateV3ToV4_run by done. intros [= <- <-]. by right.
  - rewrite migrateV3ToV4_skip by done. intros [= <- <-]. by left.
Qed.

(** The loop body adds at most three to the counter, and when it adds
    nothing it has changed nothing but the log. *)
Lemma migrateJob_counts h n w w' n' :
  migrateJob h n w = (w', Ok n') →
  (n ≤ n' ≤ n + 3)%nat ∧ (n' = n → ∃ evs, w' = withLog (log w ++ evs) w).
Proof.
  destruct h as [i j]. destruct (data j) as [d|] eqn:Hd;
    [|unfold migrateJob; cbn [snd]; by rewrite Hd].
  rewrite (migrateJob_eq i j d) by done.
  destruct (migrateV1ToV2 (i, j, d, n) w) as [w1 [st1|e]] eqn:H1; [|done].
  destruct (migrateV2ToV3 st1 w1) as [w2 [st2|e]] eqn:H2; [|done].
  destruct (migrateV3ToV4 st2 w2) as [w3 [st3|e]] eqn:H3; [|done].
  intros [= <- <-].
  apply migrateV1ToV2_counts in H1. apply migrateV2ToV3_counts in H2.
  apply migrateV3ToV4_counts in H3. cbn [snd] in H1.
  split; [lia|]. intros Heq.
  destruct H1 as [[E1 ->]|E1]; [|lia].
  destruct H2 as [[E2 [evs ->]]|E2]; [|lia].
  destruct H3 as [[E3 ->]|E3]; [|lia]. by exists evs.
Qed.

Lemma forEachJob_counts (jobs : list JobHandle) n w w' n' :
  forEachJob jobs n w = (w', Ok n') →
  (n ≤ n' ≤ n + 3 * length jobs)%nat
  ∧ (n' = n → ∃ evs, w' = withLog (log w ++ evs) w).
Proof.
  revert n w. induction jobs as [|h jobs IH]; intros n w.
  - intros [= <- <-]. split; [simpl; lia|]. intros _. exists [].
    by rewrite withLog_nil.
  - rewrite forEachJob_cons.
    destruct (migrateJob h n w) as [w1 [n1|e]] eqn:Hjob; [|done].
    intros Hrest. apply migrateJob_counts in Hjob as [Hb1 Hz1].
    apply IH in Hrest as [Hb2 Hz2]. split; [simpl; lia|].
    intros Heq. destruct Hz1 as [evs ->]; [lia|].
    destruct Hz2 as [evs' ->]; [lia|].
    exists (evs ++ evs'). by rewrite withLog_app.
Qed.

Lemma declines_spelled_out w (j : Job) d :
  data j = Some d → declines w j →
  repeat j ≫= tz = None ∨ repeat j ≫= pattern = None
  ∨ (dbOnline w = true
     ∧ List.find (publishedAs (d !! "flowVersionId")) (flowTable w) = None).
Proof.
  intros Hd. unfold declines.
  destruct (repeat j ≫= tz) as [t|] eqn:Ht; [|by left].
  destruct (repeat j ≫= pattern) as [p|] eqn:Hp; [|by right; left].
  rewrite (updateCron_repeatable j w t p d) by done.
  destruct (dbOnline w); [|done].
  destruct (List.find _ _); [done|]. intros _. by right; right.
Qed.

End PassFacts.

(** ** The backfill, the payloads and the removal, in more detail *)

Section Details.

Implicit Types (w : World) (d : obj) (j : Job) (id : string).

Lemma publishedAs_setSchedule key id (s : Schedule) (f : Flow) :
  publishedAs key (setSchedule id s f) = publishedAs key f.
Proof. unfold setSchedule, publishedAs. by case_bool_decide. Qed.

Lemma find_setSchedule key id (s : Schedule) (t : list Flow) :
  List.find (publishedAs key) (map (setSchedule id s) t)
  = setSchedule id s <$> List.find (publishedAs key) t.
Proof.
  induction t as [|f t IH]; [done|]. simpl.
  rewrite publishedAs_setSchedule. by destruct (publishedAs key f).
Qed.

Lemma dom_normalizedJobData a b c e :
  dom (normalizedJobData a b c e) ⊆ normalizedKeys.
Proof.
  intros k [v Hv]%elem_of_dom. unfold normalizedJobData in Hv.
  repeat match type of Hv with
         | setProp ?k0 _ _ !! _ = _ =>
             destruct (decide (k0 = k)) as [<-|Hne];
             [unfold normalizedKeys;
              rewrite !elem_of_union, !elem_of_singleton; tauto
             |rewrite lookup_setProp_ne in Hv by done; clear Hne]
         end.
  by rewrite lookup_empty in Hv.
Qed.

Lemma keepsOthers_refl d : keepsOthers d d.
Proof. by intros k. Qed.

Lemma keepsOthers_trans d1 d2 d3 :
  keepsOthers d1 d2 → keepsOthers d2 d3 → keepsOthers d1 d3.
Proof. intros H12 H23 k ???. by rewrite H23, H12. Qed.

Lemma keepsOthers_renameExecutionType d :
  keepsOthers d (renameExecutionType d).
Proof.
  intros k Hs Hj He. unfold renameExecutionType.
  rewrite lookup_setProp_ne by done.
  repeat match goal with
         | |- context [if ?b then _ else _] => destruct b
         end;
    rewrite ?(lookup_setProp_ne "jobType" k) by done;
    by rewrite lookup_setProp_ne.
Qed.

Lemma repeatingJobKey_inj id id' :
  repeatingJobKey id = repeatingJobKey id' → id = id'.
Proof. unfold repeatingJobKey. simpl. by intros [=]. Qed.

Lemma keepsOthers_setProp_version d (v : option value) :
  keepsOthers d (setProp "schemaVersion" v d).
Proof. intros k Hs _ _. by rewrite lookup_setProp_ne. Qed.

Lemma migrateV2ToV3_keepsOthers (st st' : LoopState) w w' :
  migrateV2ToV3 st w = (w', Ok st') →
  keepsOthers st.1.2 st'.1.2
  ∧ st'.1.2 !! "jobType" = st.1.2 !! "jobType"
  ∧ st'.1.2 !! "executionType" = st.1.2 !! "executionType".
Proof.
  destruct st as [[job d] n].
  destruct (strictEqNum (schemaVersion d) 2) eqn:Hv2.
  - rewrite migrateV2ToV3_run by done.
    destruct (updateCronExpressionOfRedisToPostgresTable job.2 w)
      as [w1 [[]|e]]; [| |done]; intros [= <- <-]; cbn [fst snd].
    + split; [exact (keepsOthers_setProp_version d (Some (VNum 3)))|].
      by rewrite !lookup_insert_ne.
    + split; [apply keepsOthers_refl|done].
  - rewrite migrateV2ToV3_skip by done. intros [= <- <-].
    split; [apply keepsOthers_refl|done].
Qed.

Lemma migrateV3ToV4_keepsOthers (st st' : LoopState) w w' :
  migrateV3ToV4 st w = (w', Ok st') →
  keepsOthers st.1.2 st'.1.2
  ∧ (st.1.2 !! "executionType" ≠ Some (VStr ExecutionType.BEGIN) →
     st.1.2 !! "executionType" ≠ Some (VStr ExecutionType.RESUME) →
     st'.1.2 !! "jobType" = st.1.2 !! "jobType").
Proof.
  destruct st as [[job d] n].
  destruct (strictEqNum (schemaVersion d) 3) eqn:Hv3.
  - rewrite migrateV3ToV4_run by done. intros [= <- <-]. cbn [fst snd].
    split; [apply keepsOthers_renameExecutionType|].
    intros Hb Hr. rewrite renameExecutionType_jobType.
    destruct (strictEqStr _ ExecutionType.BEGIN) eqn:Eb;
      [by apply strictEqStr_true in Eb|].
    destruct (strictEqStr _ ExecutionType.RESUME) eqn:Er;
      [by apply strictEqStr_true in Er|done].
  - rewrite migrateV3ToV4_skip by done. intros [= <- <-].
    split; [apply keepsOthers_refl|done].
Qed.

(** A job past the first generation keeps its other properties through
    the loop body. *)
Lemma migrateJob_keepsOthers i j d n w w' n' :
  scheduledJobs w !! i = Some (Some j) → data j = Some d →
  isV1 d = false →
  migrateJob (i, j) n w = (w', Ok n') →
  ∃ j' d',
    scheduledJobs w' !! i = Some (Some j') ∧ data j' = Some d'
    ∧ keepsOthers d d'
    ∧ (d !! "executionType" ≠ Some (VStr ExecutionType.BEGIN) →
       d !! "executionType" ≠ Some (VStr ExecutionType.RESUME) →
       d' !! "jobType" = d !! "jobType").
Proof.
  intros Hl Hd Hv1. rewrite (migrateJob_eq i j d) by done.
  rewrite migrateV1ToV2_skip by done.
  destruct (migrateV2ToV3 (i, j, d, n) w) as [w2 [st2|e]] eqn:H2; [|done].
  destruct (migrateV3ToV4 st2 w2) as [w3 [st3|e]] eqn:H3; [|done].
  intros [= <- <-].
  destruct (migrateV2ToV3_keepsOthers _ _ _ _ H2) as (Hk2 & Hj2 & He2).
  destruct (migrateV3ToV4_keepsOthers _ _ _ _ H3) as (Hk3 & Hj3).
  apply (migrateV2ToV3_post i) in H2 as (Hs2 & Hv1' & Hv2); [|done..].
  apply (migrateV3ToV4_post i) in H3 as [(_ & Hs3 & Hd3) _]; [|done..].
  cbn [fst snd] in *.
  exists st3.1.1.2, st3.1.2. split; [done|]. split; [done|].
  split; [by eapply keepsOthers_trans|].
  intros Hb Hr. rewrite Hj3, Hj2; [done|by rewrite He2..].
Qed.

(** What the loop body does to a record at version 2 or 3 when it runs to
    its end. *)
Lemma migrateJob_v3_outcome i j d n w :
  (i < length (scheduledJobs w))%nat →
  data j = Some d → schemaVersion d = Some (VNum 3) →
  ∃ w', migrateJob (i, j) n w = (w', Ok (S n))
        ∧ scheduledJobs w' !! i
          = Some (Some (withData (renameExecutionType d) j)).
Proof.
  intros Hi Hd Hv. rewrite (migrateJob_eq i j d) by done.
  rewrite migrateV1ToV2_skip by by eapply isV1_schemaVersion.
  rewrite migrateV2ToV3_skip by by rewrite Hv.
  rewrite migrateV3ToV4_run by by rewrite Hv.
  eexists. split; [done|]. by apply lookup_stored_eq.
Qed.

Lemma migrateJob_v2_outcome i j d n w w' n' :
  (i < length (scheduledJobs w))%nat →
  data j = Some d → schemaVersion d = Some (VNum 2) →
  migrateJob (i, j) n w = (w', Ok n') →
  declines w j
  ∨ scheduledJobs w' !! i
    = Some (Some (withData
                    (renameExecutionType
                       (setProp "schemaVersion" (Some (VNum 3)) d)) j)).
Proof.
  intros Hi Hd Hv. rewrite (migrateJob_eq i j d) by done.
  rewrite migrateV1ToV2_skip by by eapply isV1_schemaVersion.
  rewrite migrateV2ToV3_run by by rewrite Hv. cbn [fst snd].
  assert (Hev : evolves (λ _, False) w
            (updateCronExpressionOfRedisToPostgresTable j w).1)
    by apply preserves_updateCron.
  destruct (updateCronExpressionOfRedisToPostgresTable j w)
    as [w1 [[]|e]] eqn:Hcron; [| |done]; cbn [fst] in Hev; cbv zeta.
  - rewrite migrateV3ToV4_run by apply bumped_version_is_3.
    intros [= <- <-]. right. cbn [fst snd]. apply lookup_stored_eq.
    by rewrite length_stored, (ev_length _ _ _ Hev).
  - intros _. left. unfold declines. by rewrite Hcron.
Qed.

End Details.

(** ** Summaries of piece metadata *)

Section Summaries.

Implicit Types (entities originals : list PieceMetadata)
  (st : option SuggestionType.t) (e : PieceMetadata).

Lemma summarize_found originals st e o :
  originalOf originals e = Some o →
  summarize originals st e
  = Returns
      (mkSummary e (length (actions o)) (length (triggers o))
         (if isSuggestion st SuggestionType.ACTION
                          SuggestionType.ACTION_AND_TRIGGER
          then Some (actions e).*2 else None)
         (if isSuggestion st SuggestionType.TRIGGER
                          SuggestionType.ACTION_AND_TRIGGER
          then Some (triggers e).*2 else None)).
Proof. unfold summarize, originalOf. by intros ->. Qed.


Lemma originalOf_Some originals e :
  (∃ o, o ∈ originals ∧ name o = name e) ↔ is_Some (originalOf originals e).
Proof.
  unfold originalOf. split.
  - intros (o & Ho%list_elem_of_In & Hn).
    destruct (List.find _ originals) eqn:Hfind; [by eexists|].
    pose proof (find_none _ _ Hfind o Ho) as Hno. simpl in Hno.
    by rewrite bool_decide_eq_true_2 in Hno.
  - intros [o Hfind]. apply find_some in Hfind as [Ho Hn].
    exists o. split; [by apply list_elem_of_In|].
    by apply bool_decide_eq_true in Hn.
Qed.

Lemma mapThrowing_returns {A B} (f : A → thrown B) (l : list A)
    (g : A → B) :
  (∀ x, x ∈ l → f x = Returns (g x)) →
  mapThrowing f l = Returns (g <$> l).
Proof.
  induction l as [|x l IH]; intros Hf; [done|]. simpl.
  rewrite (Hf x) by by left. rewrite IH; [done|].
  intros y Hy. apply Hf. by right.
Qed.



End Summaries.

(** ** A pass that threw throws again *)

Section Stuck.

Implicit Types (w : World) (l : list MaybeJob) (k n : nat) (e : error).

Lemma jobsFrom_0 l : jobsFrom 0 l = jobsToMigrate l.
Proof. done. Qed.

Lemma jobsFrom_cons k (mj : MaybeJob) l :
  jobsFrom k (mj :: l)
  = match mj with
    | Some j =>
        if jobDataSchemaVersionIsNotLatest (Some j)
        then (k, j) :: jobsFrom (S k) l
        else jobsFrom (S k) l
    | None => jobsFrom (S k) l
    end.
Proof.
  unfold jobsFrom. rewrite imap_cons. cbn [omap list_omap fst snd].
  rewrite Nat.add_0_r.
  rewrite (imap_ext _ (λ i, pair (S k + i)%nat))
    by (intros i x _; simpl; f_equal; lia).
  destruct mj as [j|]; [|done].
  by destruct (jobDataSchemaVersionIsNotLatest (Some j)).
Qed.

Lemma jobsFrom_lower_bound k l (h : JobHandle) :
  h ∈ jobsFrom k l → (k ≤ h.1)%nat.
Proof.
  revert k. induction l as [|mj l IH]; intros k.
  { intros Hh. by apply elem_of_nil in Hh. }
  rewrite jobsFrom_cons. destruct mj as [j|].
  - destruct (jobDataSchemaVersionIsNotLatest (Some j)).
    + intros [->|Hh%IH]%elem_of_cons; simpl; lia.
    + intros Hh%IH. lia.
  - intros Hh%IH. lia.
Qed.

(** The loop over the jobs from position [S k] on leaves the entry at [k]
    as it is. *)
Lemma forEachJob_jobsFrom_frame k l n w :
  scheduledJobs (forEachJob (jobsFrom (S k) l) n w).1 !! k
  = scheduledJobs w !! k.
Proof.
  assert (Hev : evolves (λ i, (S k ≤ i)%nat) w
            (forEachJob (jobsFrom (S k) l) n w).1).
  { apply preserves_forEachJob. intros h. apply jobsFrom_lower_bound. }
  apply (ev_frame _ _ _ Hev). lia.
Qed.

Lemma updateCron_throwsAgain (j : Job) w w1 e :
  data j ≠ None →
  updateCronExpressionOfRedisToPostgresTable j w = (w1, Err e) →
  dbOnline w1 = dbOnline w
  ∧ ∀ w2, dbOnline w2 = dbOnline w →
          ∃ w3, updateCronExpressionOfRedisToPostgresTable j w2 = (w3, Err e).
Proof.
  intros Hd.
  destruct (repeat j ≫= tz) as [t|] eqn:Ht;
    [destruct (repeat j ≫= pattern) as [p|] eqn:Hp|];
    [|rewrite updateCron_unrepeatable; [done|by right]
     |rewrite updateCron_unrepeatable; [done|by left]].
  destruct (data j) as [d|] eqn:Hdata; [|done].
  rewrite (updateCron_repeatable j w t p d) by done.
  destruct (dbOnline w) eqn:Hdb; [by destruct (List.find _ _)|].
  intros [= <- <-]. split; [done|]. intros w2 Hw2.
  rewrite (updateCron_repeatable j w2 t p d) by done.
  rewrite Hw2. by eexists.
Qed.

(** When the loop body throws on the record at [k], the record it leaves
    there is selected again, and the loop body throws the same on it. *)
Lemma migrateJob_throwsAgain k (j : Job) n w w1 e :
  scheduledJobs w !! k = Some (Some j) →
  migrateJob (k, j) n w = (w1, Err e) →
  jobDataSchemaVersionIsNotLatest (Some j) = true →
  ∃ j2, scheduledJobs w1 !! k = Some (Some j2)
        ∧ jobDataSchemaVersionIsNotLatest (Some j2) = true
        ∧ throwsAgain e (k, j2) w1.
Proof.
  intros Hl Hrun Hsel.
  destruct (data j) as [d|] eqn:Hd; [|simpl in Hsel; by rewrite Hd in Hsel].
  rewrite (migrateJob_eq k j d) in Hrun by done.
  destruct (isV1 d) eqn:Hv1.
  - destruct (isNil (d !! "flowVersion")) eqn:Hfv.
    + rewrite migrateV1ToV2_throw in Hrun by done. injection Hrun as <- <-.
      exists j. split; [done|]. split; [done|]. intros n2 w2 _.
      rewrite (migrateJob_eq k j d) by done.
      rewrite migrateV1ToV2_throw by done. by eexists.
    + rewrite migrateV1ToV2_run in Hrun by done. cbn [fst snd] in Hrun.
      rewrite migrateV2ToV3_run in Hrun by apply v2Of_version_is_2.
      cbn [fst snd] in Hrun. set (j2 := withData (v2Of d) j) in *.
      assert (Hev : evolves (λ _, False) (stored k j2 w)
                (updateCronExpressionOfRedisToPostgresTable j2
                   (stored k j2 w)).1)
        by apply preserves_updateCron.
      destruct (updateCronExpressionOfRedisToPostgresTable j2 (stored k j2 w))
        as [wc [[]|ec]] eqn:Hcron; cbn [fst] in Hev; cbv zeta in Hrun.
      * by rewrite migrateV3ToV4_run in Hrun by apply bumped_version_is_3.
      * by rewrite migrateV3ToV4_skip in Hrun by apply v2Of_version_is_not_3.
      * injection Hrun as <- <-.
        destruct (updateCron_throwsAgain j2 _ _ _ ltac:(done) Hcron)
          as [Hdb Hagain].
        exists j2. split.
        { rewrite (ev_frame _ _ _ Hev) by tauto. apply lookup_stored_eq.
          by eapply lookup_lt_Some. }
        split.
        { unfold jobDataSchemaVersionIsNotLatest, j2. cbn [data withData].
          unfold v2Of. by rewrite normalizedJobData_schemaVersion. }
        intros n2 w2 Hw2.
        rewrite (migrateJob_eq k j2 (v2Of d)) by done.
        rewrite migrateV1ToV2_skip
          by (eapply isV1_schemaVersion;
              [apply normalizedJobData_schemaVersion|done]).
        rewrite migrateV2ToV3_run by apply v2Of_version_is_2. cbn [fst snd].
        destruct (Hagain w2) as [w3 ->]; [congruence|]. by eexists.
  - rewrite migrateV1ToV2_skip in Hrun by done.
    destruct (strictEqNum (schemaVersion d) 2) eqn:Hv2.
    + rewrite migrateV2ToV3_run in Hrun by done. cbn [fst snd] in Hrun.
      assert (Hev : evolves (λ _, False) w
                (updateCronExpressionOfRedisToPostgresTable j w).1)
        by apply preserves_updateCron.
      destruct (updateCronExpressionOfRedisToPostgresTable j w)
        as [wc [[]|ec]] eqn:Hcron; cbn [fst] in Hev; cbv zeta in Hrun.
      * by rewrite migrateV3ToV4_run in Hrun by apply bumped_version_is_3.
      * destruct (migrateV3ToV4_resolves (k, j, d, n) wc) as (? & ? & Hres).
        by rewrite Hres in Hrun.
      * injection Hrun as <- <-.
        destruct (updateCron_throwsAgain j _ _ _ ltac:(by rewrite Hd) Hcron)
          as [Hdb Hagain].
        exists j. split; [by rewrite (ev_frame _ _ _ Hev) by tauto|].
        split; [done|]. intros n2 w2 Hw2.
        rewrite (migrateJob_eq k j d) by done.
        rewrite migrateV1ToV2_skip by done.
        rewrite migrateV2ToV3_run by done. cbn [fst snd].
        destruct (Hagain w2) as [w3 ->]; [congruence|]. by eexists.
    + rewrite migrateV2ToV3_skip in Hrun by done.
      destruct (migrateV3ToV4_resolves (k, j, d, n) w) as (? & ? & Hres).
      by rewrite Hres in Hrun.
Qed.

(** When the loop throws, a loop over the queue it leaves throws the
    same. *)
Lemma forEachJob_throwsAgain l :
  ∀ (l2 : list MaybeJob) k n w wE e,
    length l2 = length l →
    (∀ i, (i < length l)%nat → scheduledJobs w !! (k + i)%nat = l !! i) →
    (∀ i, (i < length l)%nat → scheduledJobs wE !! (k + i)%nat = l2 !! i) →
    forEachJob (jobsFrom k l) n w = (wE, Err e) →
    ∀ n2 w2,
      dbOnline w2 = dbOnline wE →
      flowKeys (flowTable w2) = flowKeys (flowTable wE) →
      ∃ w3, forEachJob (jobsFrom k l2) n2 w2 = (w3, Err e).
Proof.
  induction l as [|r l IH]; intros l2 k n w wE e Hlen Hw HE Hrun n2 w2 Hdb Hkeys;
    [done|].
  destruct l2 as [|r2 l2]; [done|]. injection Hlen as Hlen.
  pose proof (Hw 0%nat ltac:(simpl; lia)) as Hr.
  pose proof (HE 0%nat ltac:(simpl; lia)) as Hr2.
  rewrite Nat.add_0_r in Hr, Hr2. cbn [lookup list_lookup] in Hr, Hr2.
  assert (HE' : ∀ i, (i < length l)%nat →
                     scheduledJobs wE !! (S k + i)%nat = l2 !! i).
  { intros i Hi. specialize (HE (S i) ltac:(simpl; lia)).
    by rewrite Nat.add_succ_r in HE. }
  assert (Hw' : ∀ i, (i < length l)%nat →
                     scheduledJobs w !! (S k + i)%nat = l !! i).
  { intros i Hi. specialize (Hw (S i) ltac:(simpl; lia)).
    by rewrite Nat.add_succ_r in Hw. }
  rewrite jobsFrom_cons in Hrun.
  assert (Hskip : ∀ n0,
            forEachJob (jobsFrom (S k) l) n0 w = (wE, Err e) →
            (∀ l', jobsFrom k (r :: l') = jobsFrom (S k) l') →
            ∃ w3, forEachJob (jobsFrom k (r2 :: l2)) n2 w2 = (w3, Err e)).
  { intros n0 Hrest Hsame.
    pose proof (forEachJob_jobsFrom_frame k l n0 w) as Hframe.
    rewrite Hrest in Hframe. cbn [fst] in Hframe.
    assert (r2 = r) as -> by congruence. rewrite Hsame.
    by eapply (IH l2 (S k) n0 w wE e). }
  destruct r as [j|];
    [|by eapply Hskip; [|intros l'; rewrite jobsFrom_cons]].
  destruct (jobDataSchemaVersionIsNotLatest (Some j)) eqn:Hsel;
    [|by eapply Hskip; [|intros l'; rewrite jobsFrom_cons, Hsel]].
  rewrite forEachJob_cons in Hrun.
  destruct (migrateJob (k, j) n w) as [w1 [n1|e1]] eqn:Hjob.
  - destruct (migrateJob_settles k j n w w1 n1 Hr Hjob) as (j' & Hl1 & Hset).
    pose proof (forEachJob_jobsFrom_frame k l n1 w1) as Hframe.
    rewrite Hrun in Hframe. cbn [fst] in Hframe.
    assert (r2 = Some j') as -> by congruence.
    assert (Hev : evolves (λ _, True) w1 (forEachJob (jobsFrom (S k) l) n1 w1).1)
      by by apply preserves_forEachJob.
    rewrite Hrun in Hev. cbn [fst] in Hev.
    assert (Hset2 : settledJob w2 j').
    { apply (settledJob_stable wE); [done..|]. by eapply settledJob_evolves. }
    assert (Hw1 : ∀ i, (i < length l)%nat →
                       scheduledJobs w1 !! (S k + i)%nat = l !! i).
    { intros i Hi. rewrite <-Hw' by done.
      destruct (preserves_migrateJob (λ k', k' = k) (k, j) n eq_refl w)
        as [Hev1 _].
      rewrite Hjob in Hev1. apply (ev_frame _ _ _ Hev1). lia. }
    rewrite jobsFrom_cons.
    destruct (jobDataSchemaVersionIsNotLatest (Some j')) eqn:Hsel'.
    + rewrite forEachJob_cons.
      destruct (migrateJob_settled k j' n2 w2) as [evs ->];
        [by apply selected_has_payload|done|].
      by eapply (IH l2 (S k) n1 w1 wE e).
    + by eapply (IH l2 (S k) n1 w1 wE e).
  - injection Hrun as <- <-.
    destruct (migrateJob_throwsAgain k j n w w1 e1 Hr Hjob Hsel)
      as (j2 & Hl2 & Hsel2 & Hagain).
    assert (r2 = Some j2) as -> by congruence.
    rewrite jobsFrom_cons, Hsel2, forEachJob_cons.
    destruct (Hagain n2 w2 Hdb) as [w3 ->]. by eexists.
Qed.

End Stuck.

(** * More about the module *)

(** X1. Whatever its outcome, [init()] rewrites payloads only: the side
    mapping and the repeat schedules are as before, and the scheduled queue
    has the same entries in the same places, each with the repeat options
    and the [repeatJobKey] it had, undefined entries and records without
    payload staying so. *)
Theorem init_rewrites_payloads_only (w : World) :
  redis (init w).1 = redis w
  ∧ repeatKeys (init w).1 = repeatKeys w
  ∧ Forall2 sameShape (scheduledJobs w) (scheduledJobs (init w).1).
Proof.
  destruct (migrateScheduledJobs_payloadsOnly w). by repeat split.
Qed.

(** X2. Whatever the outcome of the pass, [init()] does not leave the
    migration lock held: when the lock was acquired it is released, also
    when the loop threw, and when it was not acquired its holding is as
    before. *)
Theorem init_releases_the_lock (w : World) :
  lockHeld (init w).1 = (if lockFree w then false else lockHeld w).
Proof.
  unfold init. rewrite migrateScheduledJobs_eq.
  destruct (lockFree w); [|done].
  by destruct (forEachJob _ 0 _) as [w1 [n|e]].
Qed.

(** X3. After an [init()] that resolved, no record of the scheduled queue
    has a payload without [schemaVersion], at version 1 or at version 3;
    a record still at version 2 is one whose backfill declines: it lacks a
    time zone or a pattern, or the flow table has no flow with the job's
    [flowVersionId] as its published version. *)
Theorem init_leaves_no_v1_and_no_v3 (w w' : World) (i : nat) (j : Job)
    (d : obj) :
  init w = (w', Ok ()) →
  scheduledJobs w' !! i = Some (Some j) → data j = Some d →
  schemaVersion d ≠ None
  ∧ schemaVersion d ≠ Some (VNum 1)
  ∧ schemaVersion d ≠ Some (VNum 3)
  ∧ (schemaVersion d = Some (VNum 2) →
     repeat j ≫= tz = None ∨ repeat j ≫= pattern = None
     ∨ (dbOnline w' = true
        ∧ List.find (publishedAs (d !! "flowVersionId")) (flowTable w')
          = None)).
Proof.
  intros Hpass Hl Hd.
  pose proof (pass_settles w w' Hpass i j Hl) as Hset.
  unfold settledJob in Hset. rewrite Hd in Hset.
  destruct Hset as (Hv1 & Hv3 & Hv2).
  assert (Hnot1 : ¬ (schemaVersion d = None ∨ schemaVersion d = Some (VNum 1))).
  { intros H%isV1_true. congruence. }
  split; [tauto|]. split; [tauto|].
  split; [intros Hv; by rewrite Hv in Hv3|].
  intros Hv. apply declines_spelled_out; [done|]. apply Hv2. by rewrite Hv.
Qed.

Lemma init_leaves_no_v1_and_no_v3_witness :
  schemaVersion (v2Of v1Payload) ≠ None
  ∧ schemaVersion (v2Of v1Payload) ≠ Some (VNum 1)
  ∧ schemaVersion (v2Of v1Payload) ≠ Some (VNum 3)
  ∧ (schemaVersion (v2Of v1Payload) = Some (VNum 2) →
     repeat (withData (v2Of v1Payload) v1Job) ≫= tz = None
     ∨ repeat (withData (v2Of v1Payload) v1Job) ≫= pattern = None
     ∨ (dbOnline (init orphanWorld).1 = true
        ∧ List.find (publishedAs (v2Of v1Payload !! "flowVersionId"))
                    (flowTable (init orphanWorld).1) = None)).
Proof.
  apply (init_leaves_no_v1_and_no_v3
           orphanWorld (init orphanWorld).1 0
           (withData (v2Of v1Payload) v1Job) (v2Of v1Payload)).
  - vm_compute. reflexivity.
  - vm_compute. reflexivity.
  - reflexivity.
Defined.

(** X4. Whatever its outcome, [init()] leaves as it is every entry of the
    scheduled queue that is undefined, has no payload, or has a payload
    whose [schemaVersion] is defined and none of 1, 2 and 3: payloads at
    the latest version, and also payloads at a version the module does not
    know (5, a string, [null]), which the filter selects on every start. *)
Theorem init_leaves_other_versions_alone (w : World) (i : nat)
    (mj : MaybeJob) :
  scheduledJobs w !! i = Some mj → outOfReach mj = true →
  scheduledJobs (init w).1 !! i = Some mj.
Proof.
  apply migrateScheduledJobs_outOfReach.
Qed.

Lemma init_leaves_other_versions_alone_witness :
  scheduledJobs (init futureWorld).1 !! 0%nat = Some (Some futureJob)
  ∧ jobDataSchemaVersionIsNotLatest (Some futureJob) = true
  ∧ (init futureWorld).2 = Err TypeError.
Proof.
  split; [|split; vm_compute; reflexivity].
  apply (init_leaves_other_versions_alone futureWorld 0 (Some futureJob));
    reflexivity.
Defined.

(** X5. The count an [init()] that resolved reports is at most three times
    the number of jobs the filter selected, and when it is zero the pass
    has changed no record of the scheduled queue and no flow row. *)
Theorem init_count_bounds (w w' : World) :
  init w = (w', Ok ()) →
  ∃ n : nat,
    last (log w') = Some (InfoMigratedJobs n)
    ∧ (n ≤ 3 * length (jobsToMigrate (scheduledJobs w)))%nat
    ∧ (n = 0%nat →
       scheduledJobs w' = scheduledJobs w ∧ flowTable w' = flowTable w).
Proof.
  unfold init. rewrite migrateScheduledJobs_eq.
  destruct (lockFree w); [|done].
  destruct (forEachJob _ 0 _) as [w1 [n|e]] eqn:Hrun; [|done].
  intros [= <-]. exists n. split; [simpl; apply last_snoc|].
  apply forEachJob_counts in Hrun as [Hb Hz]. split; [lia|].
  intros ->. destruct Hz as [evs ->]; done.
Qed.

Lemma init_count_bounds_witness :
  ∃ n : nat,
    last (log (init mixedWorld).1) = Some (InfoMigratedJobs n)
    ∧ (n ≤ 3 * length (jobsToMigrate (scheduledJobs mixedWorld)))%nat
    ∧ (n = 0%nat →
       scheduledJobs (init mixedWorld).1 = scheduledJobs mixedWorld
       ∧ flowTable (init mixedWorld).1 = flowTable mixedWorld).
Proof.
  apply (init_count_bounds mixedWorld (init mixedWorld).1).
  vm_compute. reflexivity.
Defined.

(** X6. The backfill answers [true] only for a job with a payload, a time
    zone and a pattern for whose [flowVersionId] the flow table has a flow;
    it has then written the schedule [{CRON_EXPRESSION, tz, pattern}] to
    that flow, so that the same lookup now finds the flow with that
    schedule, and it has left the flows of other ids, the number of rows
    and the scheduled queue as they were. *)
Theorem backfill_writes_the_schedule (j : Job) (w w' : World) :
  updateCronExpressionOfRedisToPostgresTable j w = (w', Ok true) →
  ∃ (d : obj) (t p : string) (f : Flow),
    data j = Some d
    ∧ repeat j ≫= tz = Some t ∧ repeat j ≫= pattern = Some p
    ∧ List.find (publishedAs (d !! "flowVersionId")) (flowTable w) = Some f
    ∧ List.find (publishedAs (d !! "flowVersionId")) (flowTable w')
      = Some (mkFlow (flowId f) (publishedVersionId f)
                     (Some (cronSchedule t p)))
    ∧ (∀ g : Flow, g ∈ flowTable w → flowId g ≠ flowId f → g ∈ flowTable w')
    ∧ length (flowTable w') = length (flowTable w)
    ∧ scheduledJobs w' = scheduledJobs w.
Proof.
  destruct (repeat j ≫= tz) as [t|] eqn:Ht;
    [destruct (repeat j ≫= pattern) as [p|] eqn:Hp|];
    [|rewrite updateCron_unrepeatable; [done|by right]
     |rewrite updateCron_unrepeatable; [done|by left]].
  destruct (data j) as [d|] eqn:Hd;
    [|unfold updateCronExpressionOfRedisToPostgresTable;
      by rewrite Ht, Hp, Hd].
  rewrite (updateCron_repeatable j w t p d) by done.
  destruct (dbOnline w); [|done].
  destruct (List.find _ (flowTable w)) as [f|] eqn:Hfind; [|done].
  intros [= <-]. exists d, t, p, f. repeat split; try done.
  - cbn [flowTable withFlowTable]. rewrite find_setSchedule, Hfind. simpl.
    unfold setSchedule. by rewrite bool_decide_eq_true_2.
  - intros g Hg Hne. cbn [flowTable withFlowTable].
    apply list_elem_of_fmap. exists g. split; [|done].
    unfold setSchedule. by rewrite bool_decide_eq_false_2.
  - cbn [flowTable withFlowTable]. apply length_map.
Qed.

Lemma backfill_writes_the_schedule_witness :
  ∃ (d : obj) (t p : string) (f : Flow),
    data v2JobRepeat = Some d
    ∧ repeat v2JobRepeat ≫= tz = Some t
    ∧ repeat v2JobRepeat ≫= pattern = Some p
    ∧ List.find (publishedAs (d !! "flowVersionId")) (flowTable happyWorld)
      = Some f
    ∧ List.find (publishedAs (d !! "flowVersionId"))
        (flowTable
           (updateCronExpressionOfRedisToPostgresTable v2JobRepeat
              happyWorld).1)
      = Some (mkFlow (flowId f) (publishedVersionId f)
                     (Some (cronSchedule t p)))
    ∧ (∀ g : Flow,
         g ∈ flowTable happyWorld → flowId g ≠ flowId f →
         g ∈ flowTable
               (updateCronExpressionOfRedisToPostgresTable v2JobRepeat
                  happyWorld).1)
    ∧ length (flowTable
                (updateCronExpressionOfRedisToPostgresTable v2JobRepeat
                   happyWorld).1)
      = length (flowTable happyWorld)
    ∧ scheduledJobs
        (updateCronExpressionOfRedisToPostgresTable v2JobRepeat happyWorld).1
      = scheduledJobs happyWorld.
Proof.
  apply (backfill_writes_the_schedule v2JobRepeat happyWorld).
  vm_compute. reflexivity.
Defined.

(** X7. When the first block completes, the payload it has written has no
    property besides [schemaVersion], [flowVersionId], [flowId],
    [projectId], [environment], [executionType] and [triggerType]: the
    inline flow version and every other property of the old payload are
    gone. [flowVersionId] and [flowId] are the [id] and [flowId] of the
    inline flow version, [projectId] and [triggerType] are carried over. *)
Theorem first_block_normalises (job : JobHandle) (d : obj) (n : nat)
    (w w' : World) (st' : LoopState) :
  schemaVersion d = None ∨ schemaVersion d = Some (VNum 1) →
  migrateV1ToV2 (job, d, n) w = (w', Ok st') →
  data st'.1.1.2 = Some st'.1.2
  ∧ dom st'.1.2 ⊆ normalizedKeys
  ∧ st'.1.2 !! "flowVersion" = None
  ∧ st'.1.2 !! "flowVersionId" = d !! "flowVersion" ≫= getProp "id"
  ∧ st'.1.2 !! "flowId" = d !! "flowVersion" ≫= getProp "flowId"
  ∧ st'.1.2 !! "projectId" = d !! "projectId"
  ∧ st'.1.2 !! "triggerType" = d !! "triggerType".
Proof.
  intros Hv1%isV1_true.
  destruct (isNil (d !! "flowVersion")) eqn:Hfv;
    [by rewrite migrateV1ToV2_throw|].
  rewrite migrateV1ToV2_run by done. intros [= <- <-]. cbn [fst snd].
  split; [done|]. split; [apply dom_normalizedJobData|].
  unfold v2Of, normalizedJobData.
  repeat split; rewrite ?lookup_setProp_ne by done;
    first [apply lookup_setProp_eq|apply lookup_empty].
Qed.

Lemma first_block_normalises_witness :
  let st' := ((0%nat, withData (v2Of v1PayloadResume) v1JobResume),
              v2Of v1PayloadResume, 1%nat) in
  data st'.1.1.2 = Some st'.1.2
  ∧ dom st'.1.2 ⊆ normalizedKeys
  ∧ st'.1.2 !! "flowVersion" = None
  ∧ st'.1.2 !! "flowVersionId"
    = v1PayloadResume !! "flowVersion" ≫= getProp "id"
  ∧ st'.1.2 !! "flowId" = v1PayloadResume !! "flowVersion" ≫= getProp "flowId"
  ∧ st'.1.2 !! "projectId" = v1PayloadResume !! "projectId"
  ∧ st'.1.2 !! "triggerType" = v1PayloadResume !! "triggerType".
Proof.
  cbv zeta.
  apply (first_block_normalises (0%nat, v1JobResume) v1PayloadResume 0
           resumeWorld
           (stored 0 (withData (v2Of v1PayloadResume) v1JobResume)
                   resumeWorld)).
  - right. reflexivity.
  - reflexivity.
Defined.

(** X8. A job whose payload has a [schemaVersion] other than 1 keeps,
    through an [init()] that resolved, every property of its payload other
    than [schemaVersion], [jobType] and [executionType]; and when its
    [executionType] is neither [BEGIN] nor [RESUME], its [jobType] is as
    before too (so a job at version 3 without [executionType] is at
    version 4 without a [jobType] of the pass's making). *)
Theorem later_generations_keep_their_properties (w w' : World) (i : nat)
    (j : Job) (d : obj) :
  init w = (w', Ok ()) →
  scheduledJobs w !! i = Some (Some j) → data j = Some d →
  schemaVersion d ≠ None → schemaVersion d ≠ Some (VNum 1) →
  ∃ (j' : Job) (d' : obj),
    scheduledJobs w' !! i = Some (Some j') ∧ data j' = Some d'
    ∧ keepsOthers d d'
    ∧ (d !! "executionType" ≠ Some (VStr ExecutionType.BEGIN) →
       d !! "executionType" ≠ Some (VStr ExecutionType.RESUME) →
       d' !! "jobType" = d !! "jobType").
Proof.
  intros Hpass Hl Hd Hnone Hone.
  assert (Hv1 : isV1 d = false).
  { destruct (isV1 d) eqn:E; [|done]. apply isV1_true in E. tauto. }
  destruct (jobDataSchemaVersionIsNotLatest (Some j)) eqn:Hsel.
  - destruct (pass_at w w' i j Hpass Hl Hsel)
      as (na & wa & nb & wb & Hat & Hla & _ & _ & Hlb).
    rewrite Hlb. by eapply migrateJob_keepsOthers.
  - exists j, d. split; [|split; [done|split; [apply keepsOthers_refl|done]]].
    replace w' with (init w).1 by by rewrite Hpass.
    apply migrateScheduledJobs_outOfReach; [done|].
    simpl in *. rewrite Hd in *. unfold noBlockApplies.
    apply negb_false_iff, strictEqNum_true in Hsel.
    by rewrite Hv1, Hsel.
Qed.

Lemma later_generations_keep_their_properties_witness :
  ∃ (j' : Job) (d' : obj),
    scheduledJobs (init mixedWorld).1 !! 2%nat = Some (Some j')
    ∧ data j' = Some d'
    ∧ keepsOthers v3Payload d'
    ∧ (v3Payload !! "executionType" ≠ Some (VStr ExecutionType.BEGIN) →
       v3Payload !! "executionType" ≠ Some (VStr ExecutionType.RESUME) →
       d' !! "jobType" = v3Payload !! "jobType").
Proof.
  apply (later_generations_keep_their_properties
           mixedWorld (init mixedWorld).1 2 v3Job v3Payload).
  - vm_compute. reflexivity.
  - reflexivity.
  - reflexivity.
  - discriminate.
  - discriminate.
Defined.

(** X9. [removeRepeatingJob(id)] touches the side mapping of no other id
    (the namespaced keys of two ids never coincide), and the only repeat
    schedule it can remove is the one whose key the lookup for [id] found;
    whatever the outcome of the call. *)
Theorem removeRepeatingJob_touches_one_id (id : string) (w : World) :
  (∀ id' : string, repeatingJobKey id' = repeatingJobKey id → id' = id)
  ∧ (∀ id' : string,
       id' ≠ id →
       redis (removeRepeatingJob id w).1 !! repeatingJobKey id'
       = redis w !! repeatingJobKey id')
  ∧ (∀ k : string,
       (findRepeatableJobKey id w).2 ≠ Ok (Some k) →
       k ∈ repeatKeys (removeRepeatingJob id w).1 ↔ k ∈ repeatKeys w)
  ∧ flowTable (removeRepeatingJob id w).1 = flowTable w.
Proof.
  split; [intros id'; apply repeatingJobKey_inj|].
  rewrite removeRepeatingJob_eq.
  destruct (findRepeatableJobKey_frame id w) as (evs & key & ->).
  destruct key as [k0|]; [|by repeat split].
  case_bool_decide; cbn [fst snd].
  - split; [|split; [|done]].
    + intros id' Hne. apply lookup_delete_ne.
      intros Heq. by apply Hne, repeatingJobKey_inj.
    + intros k Hk. simpl. rewrite elem_of_difference, elem_of_singleton.
      split; [tauto|]. intros Hin. split; [done|]. intros ->. by apply Hk.
  - split; [|by split].
    intros id' Hne. apply lookup_delete_ne.
    intros Heq. by apply Hne, repeatingJobKey_inj.
Qed.

Lemma removeRepeatingJob_touches_one_id_witness :
  redis (removeRepeatingJob "fv1" twoIdsWorld).1 !! repeatingJobKey "fv2"
  = Some "k2"
  ∧ ("k2" ∈ repeatKeys (removeRepeatingJob "fv1" twoIdsWorld).1
     ↔ "k2" ∈ repeatKeys twoIdsWorld)
  ∧ redis (removeRepeatingJob "fv1" twoIdsWorld).1 !! repeatingJobKey "fv1"
    = None.
Proof.
  destruct (removeRepeatingJob_touches_one_id "fv1" twoIdsWorld)
    as (_ & Hside & Hkeys & _).
  split; [|split].
  - rewrite (Hside "fv2") by discriminate. vm_compute. reflexivity.
  - apply Hkeys. vm_compute. discriminate.
  - vm_compute. reflexivity.
Defined.

(** X10. The scan stops at the first record whose payload names [id]:
    when the side mapping has no key for [id] and that record carries no
    [repeatJobKey] (a delayed run of the same flow version, say),
    [removeRepeatingJob] finds no key, hands the anomaly to the exception
    handler and resolves, and no schedule and no record is removed,
    whatever the records behind it carry. *)
Theorem first_match_without_key_ends_the_scan (id : string) (w : World)
    (pre post : list MaybeJob) (f : Job) :
  redis w !! repeatingJobKey id = None →
  scheduledJobs w = pre ++ Some f :: post →
  noMatch id pre → payloadMatches id f = true → repeatJobKey f = None →
  ∃ w',
    removeRepeatingJob id w = (w', Ok ())
    ∧ repeatKeys w' = repeatKeys w
    ∧ scheduledJobs w' = scheduledJobs w
    ∧ log w' = log w ++ [WarnJobKeyNotFound id; HandledCouldNotFindJobKey id].
Proof.
  intros Hmiss Hjobs Hpre Hf Hkey.
  assert (Hscan : scanForJobKey id (scheduledJobs w) = None)
    by (rewrite Hjobs, scanForJobKey_first by done; exact Hkey).
  rewrite removeRepeatingJob_eq, findRepeatableJobKey_miss by done.
  rewrite Hscan.
  eexists. split; [done|]. split; [done|]. split; [done|].
  simpl. by rewrite <-app_assoc.
Qed.

Lemma first_match_without_key_ends_the_scan_witness :
  payloadMatches "fv1" v4Job = true
  ∧ repeatJobKey v4Job = Some "k1"
  ∧ ∃ w',
      removeRepeatingJob "fv1" shadowedWorld = (w', Ok ())
      ∧ repeatKeys w' = repeatKeys shadowedWorld
      ∧ scheduledJobs w' = scheduledJobs shadowedWorld
      ∧ log w' = log shadowedWorld
                 ++ [WarnJobKeyNotFound "fv1";
                     HandledCouldNotFindJobKey "fv1"].
Proof.
  split; [vm_compute; reflexivity|]. split; [reflexivity|].
  apply (first_match_without_key_ends_the_scan
           "fv1" shadowedWorld [] [Some v4Job] delayedJob).
  - reflexivity.
  - reflexivity.
  - constructor.
  - vm_compute. reflexivity.
  - reflexivity.
Defined.

(** X11. When the broker answers the add of a repeating job with a job
    that carries a [repeatJobKey], [add] resolves having stored that key
    under the id in the side mapping, and nothing else besides what the
    broker did; the lookup for the id then answers that key from the
    mapping, without scanning the queue, and the mappings of other ids are
    as the broker left them. *)
Theorem add_repeating_then_lookup
    (scheduledJobQueueAdd oneTimeJobQueueAdd : string → obj → JobsOptions → M Job)
    (id : string) (data : obj) (cronExpression timezone : string)
    (w w1 : World) (job : Job) (key : string) :
  scheduledJobQueueAdd id data (repeatingOptions id cronExpression timezone) w
  = (w1, Ok job) →
  repeatJobKey job = Some key →
  add scheduledJobQueueAdd oneTimeJobQueueAdd
      (REPEATING id data cronExpression timezone) w
  = (remembered id key w1, Ok ())
  ∧ findRepeatableJobKey id (remembered id key w1)
    = (remembered id key w1, Ok (Some key))
  ∧ (∀ id' : string,
       id' ≠ id →
       redis (remembered id key w1) !! repeatingJobKey id'
       = redis w1 !! repeatingJobKey id').
Proof.
  intros Hadd Hkey. split; [|split].
  - unfold add, mbind, M_bind. unfold repeatingOptions in Hadd.
    by rewrite Hadd, Hkey.
  - apply findRepeatableJobKey_hit. apply lookup_insert_eq.
  - intros id' Hne. apply lookup_insert_ne.
    intros Heq. by apply Hne, eq_sym, repeatingJobKey_inj.
Qed.

Lemma add_repeating_then_lookup_witness :
  let key := "fv7:UTC:*/5 * * * *" in
  let w1 := (sampleQueueAdd "fv7" v4Payload
               (repeatingOptions "fv7" "*/5 * * * *" "UTC") twoIdsWorld).1 in
  add sampleQueueAdd sampleQueueAdd
      (REPEATING "fv7" v4Payload "*/5 * * * *" "UTC") twoIdsWorld
  = (remembered "fv7" key w1, Ok ())
  ∧ findRepeatableJobKey "fv7" (remembered "fv7" key w1)
    = (remembered "fv7" key w1, Ok (Some key))
  ∧ (∀ id' : string,
       id' ≠ "fv7" →
       redis (remembered "fv7" key w1) !! repeatingJobKey id'
       = redis w1 !! repeatingJobKey id').
Proof.
  cbv zeta.
  apply (add_repeating_then_lookup sampleQueueAdd sampleQueueAdd
           "fv7" v4Payload "*/5 * * * *" "UTC" twoIdsWorld _
           (mkJob (Some v4Payload)
                  (Some (mkRepeat (Some "UTC") (Some "*/5 * * * *")))
                  (Some "fv7:UTC:*/5 * * * *"))).
  - reflexivity.
  - reflexivity.
Defined.

(** X12. Adding a repeating job and removing it again leaves no trace of
    the id: when the broker answered the add with a key and registered the
    schedule under it, [removeRepeatingJob] resolves, hands nothing to the
    exception handler, and the side mapping is what the broker left
    without an entry for the id, the schedule being gone. When no record
    left on the queue names the id, a second [removeRepeatingJob] resolves
    too and removes nothing. *)
Theorem add_repeating_then_remove
    (scheduledJobQueueAdd oneTimeJobQueueAdd : string → obj → JobsOptions → M Job)
    (id : string) (data : obj) (cronExpression timezone : string)
    (w w1 : World) (job : Job) (key : string) :
  scheduledJobQueueAdd id data (repeatingOptions id cronExpression timezone) w
  = (w1, Ok job) →
  repeatJobKey job = Some key → key ∈ repeatKeys w1 →
  redis w1 !! repeatingJobKey id = None →
  ∃ w2 w3 : World,
    add scheduledJobQueueAdd oneTimeJobQueueAdd
        (REPEATING id data cronExpression timezone) w
    = (w2, Ok ())
    ∧ removeRepeatingJob id w2 = (w3, Ok ())
    ∧ redis w3 = redis w1
    ∧ (key ∉ repeatKeys w3)
    ∧ log w3 = log w1
    ∧ (noMatch id (scheduledJobs w3) →
       ∃ w4 : World,
         removeRepeatingJob id w3 = (w4, Ok ())
         ∧ redis w4 = redis w3 ∧ repeatKeys w4 = repeatKeys w3
         ∧ scheduledJobs w4 = scheduledJobs w3).
Proof.
  intros Hadd Hkey Hactive Hfresh.
  exists (remembered id key w1),
         (forgotten id (unscheduled key (remembered id key w1))).
  split; [|split; [|split; [|split; [|split]]]].
  - unfold add, mbind, M_bind. unfold repeatingOptions in Hadd.
    by rewrite Hadd, Hkey.
  - rewrite removeRepeatingJob_eq.
    rewrite (findRepeatableJobKey_hit id _ key) by apply lookup_insert_eq.
    by rewrite bool_decide_eq_true_2.
  - simpl. rewrite delete_insert_eq. by apply delete_id.
  - simpl. intros [_ Hn]%elem_of_difference. apply Hn.
    by apply elem_of_singleton.
  - done.
  - intros Hnone. rewrite removeRepeatingJob_eq.
    rewrite findRepeatableJobKey_miss by (simpl; apply lookup_delete_eq).
    rewrite scanForJobKey_none by done. by eexists.
Qed.

Lemma add_repeating_then_remove_witness :
  ∃ w2 w3 : World,
    add sampleQueueAdd sampleQueueAdd
        (REPEATING "fv7" v4Payload "*/5 * * * *" "UTC") emptyWorld
    = (w2, Ok ())
    ∧ removeRepeatingJob "fv7" w2 = (w3, Ok ())
    ∧ redis w3
      = redis (sampleQueueAdd "fv7" v4Payload
                 (repeatingOptions "fv7" "*/5 * * * *" "UTC") emptyWorld).1
    ∧ ("fv7:UTC:*/5 * * * *" ∉ repeatKeys w3)
    ∧ log w3
      = log (sampleQueueAdd "fv7" v4Payload
               (repeatingOptions "fv7" "*/5 * * * *" "UTC") emptyWorld).1
    ∧ (noMatch "fv7" (scheduledJobs w3) →
       ∃ w4 : World,
         removeRepeatingJob "fv7" w3 = (w4, Ok ())
         ∧ redis w4 = redis w3 ∧ repeatKeys w4 = repeatKeys w3
         ∧ scheduledJobs w4 = scheduledJobs w3).
Proof.
  apply (add_repeating_then_remove sampleQueueAdd sampleQueueAdd
           "fv7" v4Payload "*/5 * * * *" "UTC" emptyWorld _
           (mkJob (Some v4Payload)
                  (Some (mkRepeat (Some "UTC") (Some "*/5 * * * *")))
                  (Some "fv7:UTC:*/5 * * * *"))
           "fv7:UTC:*/5 * * * *").
  - reflexivity.
  - reflexivity.
  - apply (bool_decide_unpack _ (dec := elem_of_dec_slow _ _)).
    vm_compute. exact I.
  - reflexivity.
Defined.

(** X13. Provided the broker's own add does not write the side mapping,
    [add] writes at most the entry of the id it is called for, whatever its
    outcome: every other key of the side mapping is as before, and for a
    delayed or a one-time job, or when the broker rejects (the rejection is
    passed on as it is), the whole mapping is. *)
Theorem add_writes_one_mapping_at_most
    (scheduledJobQueueAdd oneTimeJobQueueAdd : string → obj → JobsOptions → M Job)
    (params : AddParams) (w : World) :
  (∀ id data opts w0,
     redis (scheduledJobQueueAdd id data opts w0).1 = redis w0) →
  (∀ id data opts w0,
     redis (oneTimeJobQueueAdd id data opts w0).1 = redis w0) →
  let w' := (add scheduledJobQueueAdd oneTimeJobQueueAdd params w).1 in
  (∀ k : string,
     k ≠ repeatingJobKey (idOf params) → redis w' !! k = redis w !! k)
  ∧ ((∀ id data c t, params ≠ REPEATING id data c t) → redis w' = redis w)
  ∧ (∀ (w1 : World) (e : error),
       brokerCall scheduledJobQueueAdd oneTimeJobQueueAdd params w
       = (w1, Err e) →
       add scheduledJobQueueAdd oneTimeJobQueueAdd params w = (w1, Err e)
       ∧ redis w1 = redis w).
Proof.
  intros Hs Ho. cbv zeta.
  destruct params as [id data c t|id data delay|id data priority];
    unfold add, brokerCall, mbind, M_bind, mret, M_ret; cbn [idOf].
  - specialize (Hs id data
                  (mkJobsOptions id (Some (mkRepeat (Some t) (Some c)))
                                 None None) w).
    destruct (scheduledJobQueueAdd _ _ _ w) as [w1 [job|e]];
      cbn [fst] in *.
    + destruct (repeatJobKey job) as [key|]; cbn [fst].
      * split; [|split; [|done]].
        -- intros k Hk. simpl. rewrite lookup_insert_ne by done.
           by rewrite Hs.
        -- intros Hno. by destruct (Hno id data c t).
      * split; [by intros; rewrite Hs|]. split; [by rewrite Hs|done].
    + split; [by intros; rewrite Hs|]. split; [done|].
      intros w1' e' [= <- <-]. done.
  - specialize (Hs id data (mkJobsOptions id None (Some delay) None) w).
    destruct (scheduledJobQueueAdd _ _ _ w) as [w1 [job|e]];
      cbn [fst] in *.
    + split; [by intros; rewrite Hs|]. by split.
    + split; [by intros; rewrite Hs|]. split; [done|].
      intros w1' e' [= <- <-]. done.
  - specialize (Ho id data
                  (mkJobsOptions id None None
                     (Some (if bool_decide (priority = "high")
                            then 1 else 2))) w).
    destruct (oneTimeJobQueueAdd _ _ _ w) as [w1 [job|e]];
      cbn [fst] in *.
    + split; [by intros; rewrite Ho|]. by split.
    + split; [by intros; rewrite Ho|]. split; [done|].
      intros w1' e' [= <- <-]. done.
Qed.

Lemma add_writes_one_mapping_at_most_witness :
  let w' := (add sampleQueueAdd failingQueueAdd
                 (REPEATING "fv7" v4Payload "*/5 * * * *" "UTC")
                 twoIdsWorld).1 in
  (∀ k : string,
     k ≠ repeatingJobKey "fv7" → redis w' !! k = redis twoIdsWorld !! k)
  ∧ add sampleQueueAdd failingQueueAdd (ONE_TIME "run-1" v4Payload "high")
        twoIdsWorld
    = (twoIdsWorld, Err PersistenceError).
Proof.
  cbv zeta.
  destruct (add_writes_one_mapping_at_most sampleQueueAdd failingQueueAdd
              (REPEATING "fv7" v4Payload "*/5 * * * *" "UTC") twoIdsWorld)
    as (Hother & _ & _).
  { intros id data opts w0. unfold sampleQueueAdd.
    by destruct (optRepeat opts). }
  { reflexivity. }
  destruct (add_writes_one_mapping_at_most sampleQueueAdd failingQueueAdd
              (ONE_TIME "run-1" v4Payload "high") twoIdsWorld)
    as (_ & _ & Hreject).
  { intros id data opts w0. unfold sampleQueueAdd.
    by destruct (optRepeat opts). }
  { reflexivity. }
  split; [exact Hother|]. by apply Hreject.
Defined.

(** X14. A job at version 3, and a job at version 2 that has a time zone
    and a pattern and whose [flowVersionId] is the published version of
    some flow, is at version 4 after an [init()] that resolved, with a
    [jobType] taken from its own [executionType]: [EXECUTE_TRIGGER] for
    [BEGIN], [DELAYED_FLOW] for [RESUME]; [executionType] is cleared. *)
Theorem later_generations_reach_v4 (w w' : World) (i : nat) (j : Job)
    (d : obj) :
  init w = (w', Ok ()) →
  scheduledJobs w !! i = Some (Some j) → data j = Some d →
  schemaVersion d = Some (VNum 3)
  ∨ (schemaVersion d = Some (VNum 2)
     ∧ ∃ (t p s : string) (f : Flow),
         repeat j ≫= tz = Some t ∧ repeat j ≫= pattern = Some p
         ∧ f ∈ flowTable w ∧ publishedVersionId f = Some s
         ∧ d !! "flowVersionId" = Some (VStr s)) →
  ∃ (j' : Job) (d' : obj),
    scheduledJobs w' !! i = Some (Some j') ∧ data j' = Some d'
    ∧ schemaVersion d' = Some (VNum 4)
    ∧ d' !! "executionType" = None
    ∧ (d !! "executionType" = Some (VStr ExecutionType.BEGIN) →
       d' !! "jobType" = Some (VStr RepeatableJobType.EXECUTE_TRIGGER))
    ∧ (d !! "executionType" = Some (VStr ExecutionType.RESUME) →
       d' !! "jobType" = Some (VStr RepeatableJobType.DELAYED_FLOW)).
Proof.
  intros Hpass Hl Hd Hcase.
  assert (Hsel : jobDataSchemaVersionIsNotLatest (Some j) = true).
  { simpl. rewrite Hd. by destruct Hcase as [->|[-> _]]. }
  destruct (pass_at w w' i j Hpass Hl Hsel)
    as (na & wa & nb & wb & Hat & Hla & _ & Hkeys & Hlb).
  assert (Hi : (i < length (scheduledJobs wa))%nat)
    by by eapply lookup_lt_Some.
  rewrite Hlb. destruct Hcase as [Hv|(Hv & t & p & s & f & Ht & Hp & Hf & Hs & Hid)].
  - destruct (migrateJob_v3_outcome i j d na wa Hi Hd Hv) as (wb' & Hrun & Hl3).
    rewrite Hrun in Hat. injection Hat as <- _.
    eexists _, _. split; [exact Hl3|]. split; [done|].
    split; [apply renameExecutionType_schemaVersion|].
    split; [apply renameExecutionType_executionType|].
    rewrite renameExecutionType_jobType. split; by intros ->.
  - destruct (migrateJob_v2_outcome i j d na wa wb nb Hi Hd Hv Hat)
      as [Hdecl|Hl4].
    + exfalso. revert Hdecl.
      by eapply (published_not_declined w wa j d t p f s).
    + eexists _, _. split; [exact Hl4|]. split; [done|].
      split; [apply renameExecutionType_schemaVersion|].
      split; [apply renameExecutionType_executionType|].
      rewrite renameExecutionType_jobType.
      rewrite lookup_setProp_ne by done. split; by intros ->.
Qed.

Lemma later_generations_reach_v4_witness :
  ∃ (j' : Job) (d' : obj),
    scheduledJobs (init mixedWorld).1 !! 2%nat = Some (Some j')
    ∧ data j' = Some d'
    ∧ schemaVersion d' = Some (VNum 4)
    ∧ d' !! "executionType" = None
    ∧ (v3Payload !! "executionType" = Some (VStr ExecutionType.BEGIN) →
       d' !! "jobType" = Some (VStr RepeatableJobType.EXECUTE_TRIGGER))
    ∧ (v3Payload !! "executionType" = Some (VStr ExecutionType.RESUME) →
       d' !! "jobType" = Some (VStr RepeatableJobType.DELAYED_FLOW)).
Proof.
  apply (later_generations_reach_v4
           mixedWorld (init mixedWorld).1 2 v3Job v3Payload).
  - vm_compute. reflexivity.
  - reflexivity.
  - reflexivity.
  - left. reflexivity.
Defined.

(** X15. When every entity has the name of some original,
    [toPieceMetadataModelSummary] returns one summary for each entity, in
    the order of the entities, each the spread of its entity. The counts
    of a summary are those of the first original with the entity's name,
    not of the entity; the suggestions are the entity's own actions
    (for [ACTION] and [ACTION_AND_TRIGGER]) and triggers (for [TRIGGER] and
    [ACTION_AND_TRIGGER]), and undefined otherwise. *)
Theorem summaries_of_known_pieces
    (entities originals : list PieceMetadata)
    (suggestionType : option SuggestionType.t) :
  (∀ e, e ∈ entities → ∃ o, o ∈ originals ∧ name o = name e) →
  ∃ summaries : list PieceMetadataModelSummary,
    toPieceMetadataModelSummary entities originals suggestionType
    = Returns summaries
    ∧ spread <$> summaries = entities
    ∧ ∀ s, s ∈ summaries →
        (∃ o, originalOf originals (spread s) = Some o
              ∧ actionsCount s = length (actions o)
              ∧ triggersCount s = length (triggers o))
        ∧ suggestedActions s
          = match suggestionType with
            | Some SuggestionType.ACTION
            | Some SuggestionType.ACTION_AND_TRIGGER =>
                Some (actions (spread s)).*2
            | _ => None
            end
        ∧ suggestedTriggers s
          = match suggestionType with
            | Some SuggestionType.TRIGGER
            | Some SuggestionType.ACTION_AND_TRIGGER =>
                Some (triggers (spread s)).*2
            | _ => None
            end.
Proof.
  intros Hknown.
  set (g := λ e : PieceMetadata,
         let o := default e (originalOf originals e) in
         mkSummary e (length (actions o)) (length (triggers o))
           (if isSuggestion suggestionType SuggestionType.ACTION
                            SuggestionType.ACTION_AND_TRIGGER
            then Some (actions e).*2 else None)
           (if isSuggestion suggestionType SuggestionType.TRIGGER
                            SuggestionType.ACTION_AND_TRIGGER
            then Some (triggers e).*2 else None)).
  exists (g <$> entities). split; [|split].
  - apply mapThrowing_returns. intros e He.
    destruct (proj1 (originalOf_Some originals e) (Hknown e He)) as [o Ho].
    rewrite (summarize_found originals suggestionType e o Ho).
    unfold g. by rewrite Ho.
  - rewrite <-list_fmap_compose. by apply list_fmap_id.
  - intros s (e & -> & He)%list_elem_of_fmap.
    destruct (proj1 (originalOf_Some originals e) (Hknown e He)) as [o Ho].
    split; [exists o; unfold g; cbn; by rewrite Ho|].
    unfold g. cbn. by destruct suggestionType as [[]|].
Qed.

Lemma summaries_of_known_pieces_witness :
  ∃ summaries : list PieceMetadataModelSummary,
    toPieceMetadataModelSummary [slackHit] [jsonPiece; slackPiece]
      (Some SuggestionType.ACTION)
    = Returns summaries
    ∧ spread <$> summaries = [slackHit]
    ∧ ∀ s, s ∈ summaries →
        (∃ o, originalOf [jsonPiece; slackPiece] (spread s) = Some o
              ∧ actionsCount s = length (actions o)
              ∧ triggersCount s = length (triggers o))
        ∧ suggestedActions s = Some (actions (spread s)).*2
        ∧ suggestedTriggers s = None.
Proof.
  apply (summaries_of_known_pieces [slackHit] [jsonPiece; slackPiece]
           (Some SuggestionType.ACTION)).
  intros e ->%list_elem_of_singleton. exists slackPiece.
  split; [|reflexivity]. apply list_elem_of_further, list_elem_of_here.
Defined.



(** X17. An [init()] that rejected rejects again, with the same error, when
    it is called on the state it left: the record at which the loop threw is
    still selected and throws as before, the records ahead of it are settled
    and change nothing, and a lock that could not be had still cannot.
    Nothing in the pass puts a failing record aside. *)
Theorem init_that_rejected_rejects_again (w w' : World) (e : error) :
  init w = (w', Err e) → ∃ w'', init w' = (w'', Err e).
Proof.
  unfold init.
  rewrite !migrateScheduledJobs_eq.
  destruct (lockFree w) eqn:Hfree;
    [|intros [= <- <-]; rewrite Hfree; by eexists].
  destruct (forEachJob _ 0 _) as [w1 [n|e1]] eqn:Hrun; [done|].
  intros [= <- <-]. cbn [lockFree withLockHeld].
  assert (Hev : evolves (λ _, True) (passStart w)
            (forEachJob (jobsToMigrate (scheduledJobs w)) 0 (passStart w)).1)
    by by apply preserves_forEachJob.
  rewrite Hrun in Hev. cbn [fst] in Hev.
  rewrite (ev_lockFree _ _ _ Hev). cbn [lockFree passStart withLog withLockHeld].
  rewrite Hfree.
  destruct (forEachJob_throwsAgain (scheduledJobs w) (scheduledJobs w1)
              0 0 (passStart w) w1 e1) with
    (n2 := 0%nat) (w2 := passStart (withLockHeld false w1)) as [w3 Hw3];
    [by rewrite (ev_length _ _ _ Hev)|done|done|done|done|done|].
  rewrite jobsFrom_0 in Hw3.
  change (scheduledJobs (withLockHeld false w1)) with (scheduledJobs w1).
  rewrite Hw3. by eexists.
Qed.

Lemma init_that_rejected_rejects_again_witness :
  ∃ w'', init (init brokenWorld).1 = (w'', Err TypeError).
Proof.
  apply (init_that_rejected_rejects_again brokenWorld _ TypeError).
  vm_compute. reflexivity.
Defined.
